(** * Petals: a shallow embedding of the sharded Bloom/range index

    The development follows the Python sources of the repository:

    - [petals/petals/bloom.py]  : [TrieNode], [Trie] ([insert], [search],
      [_dfs_search], [load_bloom_filter]), [execute_query_v2],
      [DataBlooming.index_file], [load_bloom_filters];
    - [petals/petals/utils.py]  : [ensure_json_output], [TCPMessage],
      [parse_message];
    - [petals/petals/core.py]   : [PetalsServer.handle_echo];
    - [petals/petals/server.py] : the [ping] handler.

    Python strings are Rocq strings over the ASCII range, Python sets of
    strings are [gset string], dictionaries whose iteration order is
    observable (the children of a trie node) are association lists kept in
    insertion order, and code that raises is embedded in an error monad
    whose failures are the Python exception classes. *)

From Stdlib Require Import Ascii String ZArith List Bool Lia DecimalString.
From stdpp Require Import base option list gmap strings.

Local Open Scope Z_scope.
Local Open Scope string_scope.
Local Open Scope list_scope.
Local Open Scope stdpp_scope.

(* ===================================================================== *)
(** ** Python exceptions and the error monad *)
(* ===================================================================== *)

(** The exception classes the embedded code can raise. *)
Inductive exn : Type :=
| TypeError
| KeyError
| IndexError
| ValueError
| AttributeError
| ParseError
| JSONDecodeError
| DecodeError
| TimeoutError.

#[global] Instance exn_eq_dec : EqDecision exn.
Proof. solve_decision. Defined.

(** [result A]: either a returned value or a raised exception. *)
Inductive result (A : Type) : Type :=
| Ok (a : A)
| Raise (e : exn).
Arguments Ok {A} a.
Arguments Raise {A} e.

Definition result_bind {A B} (r : result A) (k : A -> result B) : result B :=
  match r with
  | Ok a => k a
  | Raise e => Raise e
  end.

Declare Scope py_scope.
Delimit Scope py_scope with py.
Notation "'try!' x ':=' c1 'in' c2" := (result_bind c1 (fun x => c2))
  (at level 10, x name, c1 at level 100, c2 at level 200) : py_scope.

(* ===================================================================== *)
(** ** Strings: [str.lower], [str.endswith], [str.join], [str.strip] *)
(* ===================================================================== *)

Module PyStr.

Definition chars (s : string) : list ascii := list_ascii_of_string s.
Definition of_chars (l : list ascii) : string := string_of_list_ascii l.

(** [c.lower()] on the ASCII range. *)
Definition lower_char (c : ascii) : ascii :=
  let n := nat_of_ascii c in
  if (Nat.leb 65 n && Nat.leb n 90)%bool then ascii_of_nat (n + 32) else c.

(** [s.lower()] *)
Definition lower (s : string) : string := of_chars (map lower_char (chars s)).

(** [s.endswith(suffix)] *)
Definition endswith (s suffix : string) : bool :=
  let n := String.length s in
  let m := String.length suffix in
  (Nat.leb m n && String.eqb (String.substring (n - m) m s) suffix)%bool.

(** [s.startswith(prefix)] *)
Definition startswith (s pre : string) : bool := String.prefix pre s.

(** [sep.join(parts)] for a list of strings. *)
Definition join (sep : string) (parts : list string) : string :=
  String.concat sep parts.

(** [sep.join(s)] when [s] is itself a string: Python iterates over the
    characters of [s], so the separator lands between any two of them. *)
Definition join_str (sep : string) (s : string) : string :=
  join sep (map (fun c => String c EmptyString) (chars s)).

(** Whitespace recognised by [str.strip()] (ASCII range). *)
Definition isspace (c : ascii) : bool :=
  let n := nat_of_ascii c in
  ((Nat.leb 9 n && Nat.leb n 13) || (Nat.leb 28 n && Nat.leb n 32))%bool.

Fixpoint lstrip_chars (l : list ascii) : list ascii :=
  match l with
  | [] => []
  | c :: l' => if isspace c then lstrip_chars l' else l
  end.

(** [s.strip()] *)
Definition strip (s : string) : string :=
  of_chars (rev (lstrip_chars (rev (lstrip_chars (chars s))))).

End PyStr.

(* ===================================================================== *)
(** ** Paths: [os.path.dirname], [os.path.join] (posixpath) *)
(* ===================================================================== *)

Module OsPath.

Definition slash : ascii := "/"%char.

Definition is_slash (c : ascii) : bool := Ascii.eqb c slash.

(** Drop the leading characters that satisfy [p]. *)
Fixpoint drop_while (p : ascii -> bool) (l : list ascii) : list ascii :=
  match l with
  | [] => []
  | c :: l' => if p c then drop_while p l' else l
  end.

(** [posixpath.dirname]:
<<
    i = p.rfind('/') + 1
    head = p[:i]
    if head and head != '/'*len(head):
        head = head.rstrip('/')
    return head
>> *)
Definition dirname (p : string) : string :=
  let head := rev (drop_while (fun c => negb (is_slash c)) (rev (PyStr.chars p))) in
  if forallb is_slash head
  then PyStr.of_chars head
  else PyStr.of_chars (rev (drop_while is_slash (rev head))).

(** [posixpath.join(a, b)] for two components. *)
Definition join (a b : string) : string :=
  if PyStr.startswith b "/" then b
  else if (String.eqb a "" || PyStr.endswith a "/")%bool then a +:+ b
  else a +:+ "/" +:+ b.

End OsPath.

(* ===================================================================== *)
(** ** Shell-style matching: [fnmatch.fnmatch] *)
(* ===================================================================== *)

Module Fnmatch.

(** The module [fnmatch] belongs to the Python standard library, not to
    the repository.  The matcher below follows its [translate]: [*]
    stands for any run of characters, [?] for one character, a bracket
    expression for one character of a set (or, after [!], outside it),
    and a bracket that is never closed for itself. *)

(** The pieces [fnmatch.translate] turns a pattern into: [*], [?], a
    literal character, or a bracket expression with its ranges (a single
    character [c] is the range [c-c]). *)
Inductive tok : Type :=
| TStar
| TQuest
| TLit (c : ascii)
| TSet (negated : bool) (items : list (ascii * ascii)).

Definition is_char (a b : ascii) : bool := Ascii.eqb a b.

(** Text up to the first closing bracket, and the text after it. *)
Fixpoint split_at_close (l : list ascii) : option (list ascii * list ascii) :=
  match l with
  | [] => None
  | c :: l' =>
      if is_char c "]" then Some ([], l')
      else match split_at_close l' with
           | Some (body, rest) => Some (c :: body, rest)
           | None => None
           end
  end.

(** The scan [translate] performs after an opening bracket: an optional
    [!], an optional [\]] taken literally, then everything up to the
    next [\]].  [None] when the bracket is never closed. *)
Definition class_body (l : list ascii) : option (list ascii * list ascii) :=
  let '(pre1, l1) :=
    match l with
    | c :: l' => if is_char c "!" then ([c], l') else ([], l)
    | [] => ([], l)
    end in
  let '(pre2, l2) :=
    match l1 with
    | c :: l' => if is_char c "]" then ([c], l') else ([], l1)
    | [] => ([], l1)
    end in
  match split_at_close l2 with
  | Some (body, rest) => Some (pre1 ++ pre2 ++ body, rest)
  | None => None
  end.

(** Ranges and single characters of a bracket expression. *)
Fixpoint set_items (l : list ascii) : list (ascii * ascii) :=
  match l with
  | [] => []
  | a :: l1 =>
      match l1 with
      | d :: b :: l2 =>
          if is_char d "-" then (a, b) :: set_items l2
          else (a, a) :: set_items l1
      | _ => (a, a) :: set_items l1
      end
  end.

Definition mk_set (stuff : list ascii) : tok :=
  match stuff with
  | c :: stuff' =>
      if is_char c "!" then TSet true (set_items stuff')
      else TSet false (set_items stuff)
  | [] => TSet false []
  end.

Fixpoint translate_aux (fuel : nat) (pat : list ascii) : list tok :=
  match fuel with
  | O => []
  | S fuel' =>
      match pat with
      | [] => []
      | c :: p =>
          if is_char c "*" then TStar :: translate_aux fuel' p
          else if is_char c "?" then TQuest :: translate_aux fuel' p
          else if is_char c "[" then
            match class_body p with
            | None => TLit c :: translate_aux fuel' p
            | Some (stuff, rest) => mk_set stuff :: translate_aux fuel' rest
            end
          else TLit c :: translate_aux fuel' p
      end
  end.

(** [fnmatch.translate]; every step consumes at least one character, so
    the length of the pattern is enough fuel. *)
Definition translate (pat : string) : list tok :=
  translate_aux (String.length pat) (PyStr.chars pat).

Definition in_range (c : ascii) (r : ascii * ascii) : bool :=
  (Nat.leb (nat_of_ascii (fst r)) (nat_of_ascii c)
   && Nat.leb (nat_of_ascii c) (nat_of_ascii (snd r)))%bool.

(** Does a one-character piece accept [c]? *)
Definition tok_accepts (t : tok) (c : ascii) : bool :=
  match t with
  | TStar => true
  | TQuest => true
  | TLit a => is_char a c
  | TSet negated items => xorb negated (existsb (in_range c) items)
  end.

(** Whole-string match of the translated pattern. *)
Fixpoint match_toks (ts : list tok) (s : list ascii) {struct ts} : bool :=
  match ts with
  | [] => match s with [] => true | _ :: _ => false end
  | TStar :: ts' =>
      (fix star (s : list ascii) : bool :=
         (match_toks ts' s
          || match s with [] => false | _ :: s' => star s' end)%bool) s
  | t :: ts' =>
      match s with
      | [] => false
      | c :: s' => (tok_accepts t c && match_toks ts' s')%bool
      end
  end.

(** [fnmatch.fnmatchcase(name, pat)] *)
Definition fnmatchcase (name pat : string) : bool :=
  match_toks (translate pat) (PyStr.chars name).

(** [fnmatch.fnmatch(name, pat)]: both arguments go through
    [os.path.normcase] first, which is the identity on POSIX and folds
    case on Windows; it is a parameter of the model. *)
Definition fnmatch (normcase : string -> string) (name pat : string) : bool :=
  fnmatchcase (normcase name) (normcase pat).

(** [os.path.normcase] on POSIX. *)
Definition posix_normcase (s : string) : string := s.

(** [os.path.normcase] on Windows: [s.replace('/', '\\').lower()]. *)
Definition nt_normcase (s : string) : string :=
  PyStr.lower
    (PyStr.of_chars
       (map (fun c => if is_char c "/" then ascii_of_nat 92 else c)
            (PyStr.chars s))).

End Fnmatch.

(* ===================================================================== *)
(** ** Column values and their comparison *)
(* ===================================================================== *)

(** The scalars a column cell or the [value] of a query leaf holds: an
    integer or a string. *)
Inductive scalar : Type :=
| VInt (z : Z)
| VStr (s : string).

#[global] Instance scalar_eq_dec : EqDecision scalar.
Proof. solve_decision. Defined.

(** [str(v)] *)
Definition py_str (v : scalar) : string :=
  match v with
  | VInt z => NilZero.string_of_int (Z.to_int z)
  | VStr s => s
  end.

(** [a <= b]: integers by value, strings by code points; an integer and a
    string are not ordered and the comparison raises [TypeError]. *)
Definition py_le (a b : scalar) : result bool :=
  match a, b with
  | VInt x, VInt y => Ok (Z.leb x y)
  | VStr x, VStr y => Ok (String.leb x y)
  | _, _ => Raise TypeError
  end.

(** The chained comparison [lo <= v <= hi]: the second comparison is
    evaluated only when the first one is true. *)
Definition py_between (lo v hi : scalar) : result bool :=
  (try! c := py_le lo v in
   if c then py_le v hi else Ok false)%py.

(* ===================================================================== *)
(** ** Bloom filters *)
(* ===================================================================== *)

(** Modelled from the spec: the class [BloomFilter] of the package
    [pybloom_live], which the sources import and which is not part of the
    repository.  A filter is a bit array with [k] hash positions per key;
    [add] sets the positions of a key and [in] tests that all of them are
    set.  The bit array is the set of the positions that are set. *)
Record BloomFilter : Type := mkBloom {
  bf_capacity : nat;
  bf_count : nat;
  bf_bits : gset nat
}.

Section Bloom.

(** The hash positions of a key in a filter built for a given capacity
    (the error rate is fixed by the indexer). *)
Variable make_hashes : nat -> string -> list nat.

(** [BloomFilter(capacity=n, error_rate=p)] *)
Definition bloom_new (capacity : nat) : result BloomFilter :=
  match capacity with
  | O => Raise ValueError
  | S _ => Ok (mkBloom capacity 0 ∅)
  end.

(** [key in bf] *)
Definition bloom_contains (bf : BloomFilter) (key : string) : bool :=
  forallb (fun k => bool_decide (k ∈ bf_bits bf))
          (make_hashes (bf_capacity bf) key).

(** [bf.add(key)]: refuses a filter that is over capacity, sets the
    positions, and counts the key when it was not already present. *)
Definition bloom_add (bf : BloomFilter) (key : string) : result BloomFilter :=
  if Nat.ltb (bf_capacity bf) (bf_count bf) then Raise IndexError
  else
    let found_all_bits := bloom_contains bf key in
    Ok (mkBloom (bf_capacity bf)
                (if found_all_bits then bf_count bf else S (bf_count bf))
                (bf_bits bf ∪ list_to_set (make_hashes (bf_capacity bf) key))).

(** [for item in items: bf.add(item)] *)
Fixpoint bloom_add_all (bf : BloomFilter) (keys : list string) : result BloomFilter :=
  match keys with
  | [] => Ok bf
  | key :: keys' =>
      (try! bf' := bloom_add bf key in bloom_add_all bf' keys')%py
  end.

End Bloom.

(* ===================================================================== *)
(** ** Filter artifacts *)
(* ===================================================================== *)

(** The dictionary pickled for one column of one shard:
    [{'type': 'bloom', 'filter': bloom}] or
    [{'type': 'range', 'min': min_value, 'max': max_value}]. *)
Inductive FilterData : Type :=
| FBloom (bloom : BloomFilter)
| FRange (min_value max_value : scalar).

(* ===================================================================== *)
(** ** The path trie *)
(* ===================================================================== *)

(** A Python [dict] with string keys, in insertion order. *)
Definition dict (V : Type) : Type := list (string * V).

Fixpoint dict_get {V} (k : string) (d : dict V) : option V :=
  match d with
  | [] => None
  | (k', v) :: d' => if String.eqb k k' then Some v else dict_get k d'
  end.

(** [d[k] = v]: an existing key keeps its position, a new key goes last. *)
Fixpoint dict_set {V} (k : string) (v : V) (d : dict V) : dict V :=
  match d with
  | [] => [(k, v)]
  | (k', v') :: d' =>
      if String.eqb k k' then (k', v) :: d' else (k', v') :: dict_set k v d'
  end.

(** [class TrieNode] *)
#[warnings="-register-all"]
Inductive TrieNode : Type := mkNode {
  children : dict TrieNode;
  end_of_file : bool;
  bloom_filter : option FilterData;
  file_path : option string
}.

(** [TrieNode(file_path)] *)
Definition TrieNode_init (file_path : option string) : TrieNode :=
  mkNode [] false None file_path.

(** [class Trie]: the root node. *)
Record Trie : Type := mkTrie { root : TrieNode }.

(** [Trie()] *)
Definition Trie_init : Trie := mkTrie (TrieNode_init None).

Definition set_children (node : TrieNode) (cs : dict TrieNode) : TrieNode :=
  mkNode cs (end_of_file node) (bloom_filter node) (file_path node).

Definition set_end_of_file (node : TrieNode) (b : bool) : TrieNode :=
  mkNode (children node) b (bloom_filter node) (file_path node).

Definition set_bloom_filter (node : TrieNode) (f : option FilterData) : TrieNode :=
  mkNode (children node) (end_of_file node) f (file_path node).

Definition set_file_path (node : TrieNode) (p : option string) : TrieNode :=
  mkNode (children node) (end_of_file node) (bloom_filter node) p.

(** Truth value of an optional string: [None] and [""] are false. *)
Definition truthy (p : option string) : bool :=
  match p with
  | Some s => negb (String.eqb s "")
  | None => false
  end.

(** [_dfs_count] *)
Fixpoint _dfs_count (node : TrieNode) : nat :=
  S ((fix count_children (cs : dict TrieNode) : nat :=
        match cs with
        | [] => O
        | (_, child) :: cs' => (_dfs_count child + count_children cs')%nat
        end) (children node)).

(** [Trie.size] *)
Definition Trie_size (trie : Trie) : nat := _dfs_count (root trie).

(** The loop [for key, child in node.children.items(): ...] when the body
    may update the child in place and extends an accumulator. *)
Section VisitChildren.

Context {R : Type}.
Variable visit : string -> TrieNode -> R -> TrieNode * R.

Fixpoint visit_children (cs : dict TrieNode) (acc : R) : dict TrieNode * R :=
  match cs with
  | [] => ([], acc)
  | (key, child) :: cs' =>
      let '(child', acc1) := visit key child acc in
      let '(cs'', acc2) := visit_children cs' acc1 in
      ((key, child') :: cs'', acc2)
  end.

End VisitChildren.

(** Queries: a leaf [{'column': c, 'value': v}] or an internal node
    [{'condition': cond, 'rules': [...]}]. *)
#[warnings="-register-all"]
Inductive Query : Type :=
| Leaf (column : string) (value : scalar)
| Internal (condition : string) (rules : list Query).

(** The loop of [execute_query_v2] over [rules[1:]]: each rule is
    evaluated in turn and folded into [matching_files]. *)
Section EvalRules.

Variable eval : Query -> Trie -> Trie * result (gset string).
Variable condition : string.

(** [intersection_update] under ['AND'], [update] under ['OR'], and no
    change under any other condition. *)
Definition combine (matching_files rule_files : gset string) : gset string :=
  if String.eqb condition "AND" then matching_files ∩ rule_files
  else if String.eqb condition "OR" then matching_files ∪ rule_files
  else matching_files.

Fixpoint eval_rules (rules : list Query) (trie : Trie)
    (matching_files : gset string) : Trie * result (gset string) :=
  match rules with
  | [] => (trie, Ok matching_files)
  | rule :: rules' =>
      match eval rule trie with
      | (trie', Ok rule_files) =>
          eval_rules rules' trie' (combine matching_files rule_files)
      | (trie', Raise e) => (trie', Raise e)
      end
  end.

End EvalRules.

Section Index.

(** [os.path.normcase], used by [fnmatch.fnmatch]. *)
Variable normcase : string -> string.

(** What [pickle.load] yields for the file at a path: [None] when the
    file cannot be opened or unpickled.  The index is a set of immutable
    artifacts: the files do not change while the trie is in use. *)
Variable pickle_load : string -> option FilterData.

(** Hash positions of the Bloom filters. *)
Variable make_hashes : nat -> string -> list nat.

(** [Trie.load_bloom_filter]: any exception is caught and gives [None];
    a path that is [None] makes [open] raise, hence [None] as well. *)
Definition load_bloom_filter (path : option string) : option FilterData :=
  match path with
  | Some p => pickle_load p
  | None => None
  end.

(** The body of [Trie.insert] from the node reached so far:
<<
    for part in path:
        if part not in node.children:
            node.children[part] = TrieNode(file_path)
        node = node.children[part]
    node.end_of_file = True
    if file_path:
        node.file_path = file_path
        node.bloom_filter = self.load_bloom_filter(file_path)
>> *)
Fixpoint insert_from (node : TrieNode) (path : list string)
    (fp : option string) : TrieNode :=
  match path with
  | [] =>
      let node1 := set_end_of_file node true in
      if truthy fp
      then set_bloom_filter (set_file_path node1 fp) (load_bloom_filter fp)
      else node1
  | part :: path' =>
      let child :=
        match dict_get part (children node) with
        | Some c => c
        | None => TrieNode_init fp
        end in
      set_children node (dict_set part (insert_from child path' fp) (children node))
  end.

(** [Trie.insert(path, file_path)] *)
Definition Trie_insert (trie : Trie) (path : list string) (fp : option string) : Trie :=
  mkTrie (insert_from (root trie) path fp).

(** One entry of the list [Trie.search] returns. *)
Definition hit : Type := string * option FilterData.

(** [Trie._dfs_search].  [path !! index] is [None] exactly when
    [index == len(path)] on the calls [search] makes (the index starts at
    0 and grows by one per level).  The node comes back with the filters
    that were loaded on the way. *)
Fixpoint _dfs_search (node : TrieNode) (path : list string) (index : nat)
    (current_path : list string) (results : list hit) {struct node}
    : TrieNode * list hit :=
  match node with
  | mkNode cs eof bf fp =>
      match path !! index with
      | None =>
          if eof then
            let bf' := match bf with
                       | None => load_bloom_filter fp
                       | Some _ => bf
                       end in
            (mkNode cs eof bf' fp,
             results ++ [(OsPath.dirname (PyStr.join "/" current_path), bf')])
          else (node, results)
      | Some part =>
          let '(cs', results') :=
            visit_children
              (fun child_part child_node results =>
                 if Fnmatch.fnmatch normcase child_part part
                 then _dfs_search child_node path (S index)
                                  (current_path ++ [child_part]) results
                 else (child_node, results))
              cs results in
          (mkNode cs' eof bf fp, results')
      end
  end.

(** [Trie.search(path)] *)
Definition Trie_search (trie : Trie) (path : list string) : Trie * list hit :=
  let '(root', results) := _dfs_search (root trie) path 0 [] [] in
  (mkTrie root', results).

(** The pattern a leaf hands to [Trie.search]. *)
Definition leaf_pattern (source files column : string) : list string :=
  [source; files; column +:+ "*.pickle"].

(** The identifier a leaf adds for a hit:
    [os.path.dirname('/'.join(path))], where [path] is the string that
    [_dfs_search] stored in the hit. *)
Definition emitted_id (path : string) : string :=
  OsPath.dirname (PyStr.join_str "/" path).

(** The test a leaf applies to a loaded filter:
<<
    if filter_data['type'] == 'bloom' and value in filter_data['filter']: ...
    elif filter_data['type'] == 'range' and
         filter_data['min'] <= value <= filter_data['max']: ...
>> *)
Definition filter_accepts (filter_data : FilterData) (value : scalar) : result bool :=
  match filter_data with
  | FBloom bloom => Ok (bloom_contains make_hashes bloom (py_str value))
  | FRange min_value max_value => py_between min_value value max_value
  end.

(** The loop of a leaf over the hits of the search. *)
Fixpoint leaf_matches (value : scalar) (bloom_filters : list hit)
    (matching_files : gset string) : result (gset string) :=
  match bloom_filters with
  | [] => Ok matching_files
  | (path, filter_data) :: rest =>
      match filter_data with
      | None => leaf_matches value rest matching_files
      | Some fd =>
          (try! accepted := filter_accepts fd value in
           if accepted
           then leaf_matches value rest (matching_files ∪ {[ emitted_id path ]})
           else leaf_matches value rest matching_files)%py
      end
  end.

(** [execute_query_v2(query, source, files, trie)] *)
Fixpoint execute_query_v2 (query : Query) (source files : string)
    (trie : Trie) {struct query} : Trie * result (gset string) :=
  match query with
  | Leaf column value =>
      let '(trie', bloom_filters) := Trie_search trie (leaf_pattern source files column) in
      (trie', leaf_matches value bloom_filters ∅)
  | Internal condition rules =>
      match rules with
      | [] => (trie, Ok ∅)
      | rule0 :: rules' =>
          match execute_query_v2 rule0 source files trie with
          | (trie0, Ok matching_files) =>
              eval_rules (fun rule => execute_query_v2 rule source files)
                         condition rules' trie0 matching_files
          | (trie0, Raise e) => (trie0, Raise e)
          end
      end
  end.

End Index.

(* ===================================================================== *)
(** ** The indexer: [DataBlooming.index_file] *)
(* ===================================================================== *)

(** A column of a data frame: integer cells ([dtype] [int]) or string
    cells ([dtype] [object]). *)
Inductive Series : Type :=
| IntSeries (cells : list Z)
| StrSeries (cells : list string).

(** A data frame: its columns, in order. *)
Definition DataFrame : Type := list (string * Series).

(** The files written so far, by path. *)
Abbreviation Disk := (gmap string FilterData).

(** [for item in df[column]] *)
Definition series_items (s : Series) : list scalar :=
  match s with
  | IntSeries cells => map VInt cells
  | StrSeries cells => map VStr cells
  end.

(** [df[column].dtype in (float, int, 'datetime64[ns]')] *)
Definition range_dtype (s : Series) : bool :=
  match s with
  | IntSeries _ => true
  | StrSeries _ => false
  end.

(** [len(df[column].unique())] *)
Definition nunique (s : Series) : nat := length (remove_dups (series_items s)).

(** [df[column].min()] and [df[column].max()] (taken only on a column with
    more distinct values than the threshold, hence not empty): by value
    for integers, by code points for strings. *)
Definition series_min (cells : list Z) : Z := foldr Z.min (hd 0 cells) cells.
Definition series_max (cells : list Z) : Z := foldr Z.max (hd 0 cells) cells.

Definition str_min (a b : string) : string := if String.leb a b then a else b.
Definition str_max (a b : string) : string := if String.leb a b then b else a.

Definition series_bounds (s : Series) : scalar * scalar :=
  match s with
  | IntSeries cells => (VInt (series_min cells), VInt (series_max cells))
  | StrSeries cells =>
      (VStr (foldr str_min (hd "" cells) cells),
       VStr (foldr str_max (hd "" cells) cells))
  end.

Section Indexer.

Variable make_hashes : nat -> string -> list nat.

(** [self.range_filter_threshold] *)
Variable range_filter_threshold : nat.

(** The filter [index_file] builds for one column. *)
Definition column_filter (s : Series) : result FilterData :=
  if (range_dtype s && Nat.ltb range_filter_threshold (nunique s))%bool then
    let '(min_value, max_value) := series_bounds s in
    Ok (FRange min_value max_value)
  else
    (try! bloom := bloom_new (length (series_items s)) in
     try! bloom' := bloom_add_all make_hashes bloom (map py_str (series_items s)) in
     Ok (FBloom bloom'))%py.

(** The path [index_file] writes the filter of a column to. *)
Definition filter_file_path (bloom_path column : string) : string :=
  OsPath.join bloom_path (PyStr.lower column +:+ ".pickle").

(** [DataBlooming.index_file] on the frame read from the shard: one
    pickle per column under [bloom_path]; an exception stops the loop
    and leaves the files written before it. *)
Fixpoint index_file (df : DataFrame) (bloom_path : string) (disk : Disk)
    : Disk * result unit :=
  match df with
  | [] => (disk, Ok tt)
  | (column, s) :: df' =>
      match column_filter s with
      | Ok filter_data =>
          index_file df' bloom_path
                     (<[filter_file_path bloom_path column := filter_data]> disk)
      | Raise e => (disk, Raise e)
      end
  end.

End Indexer.

(* ===================================================================== *)
(** ** The discovery loader: [PetalsServer.load_bloom_filters] *)
(* ===================================================================== *)

Section Loader.

Variable pickle_load : string -> option FilterData.

(** One step of [os.walk(root_directory)]: a directory, given by its
    segments below the root, and the names of the files in it. *)
Definition walk_entry : Type := list string * list string.

(** The directory of a walk entry: the root joined with the segments. *)
Definition walk_directory (root_directory : string) (segments : list string) : string :=
  foldl OsPath.join root_directory segments.

(** The inner loop, over the files of one directory. *)
Fixpoint load_files (root_directory bloom_source : string)
    (segments : list string) (files : list string) (trie : Trie) : Trie :=
  match files with
  | [] => trie
  | file :: files' =>
      if negb (PyStr.endswith file ".pickle")
      then load_files root_directory bloom_source segments files' trie
      else
        let full_path := OsPath.join (walk_directory root_directory segments) file in
        let relative_path := [bloom_source] ++ segments ++ [file] in
        load_files root_directory bloom_source segments files'
                   (Trie_insert pickle_load trie relative_path (Some full_path))
  end.

(** [load_bloom_filters(root_directory, bloom_source)]; [walk] is [None]
    when the root directory does not exist, and the trie is then left as
    it is. *)
Definition load_bloom_filters (walk : option (list walk_entry))
    (root_directory bloom_source : string) (trie : Trie) : Trie :=
  match walk with
  | None => trie
  | Some entries =>
      foldl (fun trie '(segments, files) =>
               load_files root_directory bloom_source segments files trie)
            trie entries
  end.

End Loader.

(* ===================================================================== *)
(** ** The protocol: JSON results, messages, the connection handler *)
(* ===================================================================== *)

(** The values a handler returns and a JSON payload decodes to. *)
#[warnings="-register-all"]
Inductive json : Type :=
| JNull
| JBool (b : bool)
| JInt (z : Z)
| JStr (s : string)
| JList (items : list json)
| JDict (entries : dict json).

(** [isinstance(result, str)] *)
Definition is_str (j : json) : bool :=
  match j with
  | JStr _ => true
  | _ => false
  end.

(** The root element [ET.fromstring] returns: tag, attributes and text
    ([None] for an element without text). *)
Record Element : Type := mkElement {
  tag : string;
  attrib : dict string;
  text : option string
}.

(** [class TCPMessage] *)
Record TCPMessage : Type := mkTCPMessage {
  cls : string;
  format : option string;
  payload : json
}.

(** One [await asyncio.wait_for(reader.read(100), 10)]: some bytes, or the
    timeout. *)
Inductive read_event : Type :=
| Data (chunk : string)
| Timeout.

(** The stream a connection delivers: the reads that are still to come.
    Once they are used up the peer has closed its side, and every further
    read returns the empty chunk at once. *)
Definition reader : Type := list read_event.

Definition read (r : reader) : read_event * reader :=
  match r with
  | [] => (Data "", [])
  | ev :: r' => (ev, r')
  end.

(** How the accumulate loop of [handle_echo] ends. *)
Inductive accumulated : Type :=
| Framed (buffer : string)
| TimedOut.

(** What a connection handler did: the replies written, whether it closed
    the writer, and the exception that escaped it, if any. *)
Record outcome : Type := mkOutcome {
  sent : list string;
  closed : bool;
  raised : option exn
}.

Section Protocol.

(** [json.dumps], [json.loads], [base64.b64decode(..).decode('utf-8')]
    and [ET.fromstring]; a failure of one of the last three is [None]. *)
Variable json_dumps : json -> string.
Variable json_loads : string -> option json.
Variable b64decode_utf8 : string -> option string.
Variable fromstring : string -> option Element.

(** A handler: an [async] function of the message that works on the
    shared trie. *)
Definition handler : Type := TCPMessage -> Trie -> Trie * result string.

(** The conversion inside [ensure_json_output]:
<<
    if isinstance(result, str):
        result = {"response": result}
>> *)
Definition json_wrap (res : json) : json :=
  if is_str res then JDict [("response", res)] else res.

(** [ensure_json_output(func)] *)
Definition ensure_json_output (func : TCPMessage -> Trie -> Trie * result json)
    : handler :=
  fun message trie =>
    match func message trie with
    | (trie', Ok res) => (trie', Ok (json_dumps (json_wrap res)))
    | (trie', Raise e) => (trie', Raise e)
    end.

(** [ping_handler], before decoration. *)
Definition ping (message : TCPMessage) (trie : Trie) : Trie * result json :=
  (trie, Ok (JStr "alive")).

(** [@ensure_json_output async def ping_handler(message)] *)
Definition ping_handler : handler := ensure_json_output ping.

(** [parse_message(xml_string)] *)
Definition parse_message (xml_string : string) : result TCPMessage :=
  match fromstring xml_string with
  | None => Raise ParseError
  | Some root_elem =>
      let message_format := dict_get "format" (attrib root_elem) in
      (try! stripped :=
         match text root_elem with
         | Some t => Ok (PyStr.strip t)
         | None => Raise AttributeError
         end in
       if bool_decide (message_format = Some "json") then
         match json_loads stripped with
         | Some j => Ok (mkTCPMessage (tag root_elem) message_format j)
         | None => Raise JSONDecodeError
         end
       else if bool_decide (message_format = Some "base64") then
         match b64decode_utf8 stripped with
         | Some s => Ok (mkTCPMessage (tag root_elem) message_format (JStr s))
         | None => Raise DecodeError
         end
       else Ok (mkTCPMessage (tag root_elem) message_format (JStr stripped)))%py
  end.

(** [any(buffer.endswith(f"</{message_type}>") for message_type in self.handlers)] *)
Definition ends_with_known_tag (handlers : dict handler) (buffer : string) : bool :=
  existsb (fun '(message_type, _) =>
             PyStr.endswith buffer ("</" +:+ message_type +:+ ">"))
          handlers.

(** The [while True] loop of [handle_echo]; [None] when the loop is
    still reading after [fuel] rounds. *)
Fixpoint accumulate (fuel : nat) (handlers : dict handler) (buffer : string)
    (r : reader) : option accumulated :=
  match fuel with
  | O => None
  | S fuel' =>
      match read r with
      | (Timeout, _) => Some TimedOut
      | (Data data, r') =>
          let buffer' := buffer +:+ data in
          if ends_with_known_tag handlers buffer'
          then Some (Framed buffer')
          else accumulate fuel' handlers buffer' r'
      end
  end.

(** [PetalsServer.handle_echo(reader, writer)] *)
Definition handle_echo (fuel : nat) (handlers : dict handler) (r : reader)
    (trie : Trie) : option (Trie * outcome) :=
  match accumulate fuel handlers "" r with
  | None => None
  | Some TimedOut => Some (trie, mkOutcome [] true None)
  | Some (Framed buffer) =>
      match parse_message buffer with
      | Raise ParseError => Some (trie, mkOutcome [] false None)
      | Raise e => Some (trie, mkOutcome [] false (Some e))
      | Ok message =>
          match dict_get (cls message) handlers with
          | Some h =>
              match h message trie with
              | (trie', Ok response) =>
                  Some (trie',
                        mkOutcome ["<" +:+ cls message +:+ ">" +:+ response
                                   +:+ "</" +:+ cls message +:+ ">"]
                                  true None)
              | (trie', Raise e) => Some (trie', mkOutcome [] false (Some e))
              end
          | None => Some (trie, mkOutcome [] true None)
          end
      end
  end.

End Protocol.

(* ===================================================================== *)
(** ** Observations used in the statements *)
(* ===================================================================== *)

(** The node a path leads to, one child per segment. *)
Fixpoint node_at (node : TrieNode) (path : list string) : option TrieNode :=
  match path with
  | [] => Some node
  | part :: path' =>
      match dict_get part (children node) with
      | Some child => node_at child path'
      | None => None
      end
  end.

(** The filter [_dfs_search] reports for a terminal node: the one the node
    holds, or else the one it loads from the node's [file_path]. *)
Definition effective_filter (pickle_load : string -> option FilterData)
    (node : TrieNode) : option FilterData :=
  match bloom_filter node with
  | Some fd => Some fd
  | None => load_bloom_filter pickle_load (file_path node)
  end.

(** A run of insertions, as the discovery loader performs them. *)
Definition insert_all (pickle_load : string -> option FilterData) (trie : Trie)
    (entries : list (list string * option string)) : Trie :=
  foldl (fun trie '(path, fp) => Trie_insert pickle_load trie path fp)
        trie entries.

(** [pickle.load] over the files of a disk. *)
Definition disk_load (disk : Disk) (path : string) : option FilterData :=
  disk !! path.

(** The double quote character, for frames written out in full. *)
Definition dquote : string := String (ascii_of_nat 34) EmptyString.

(* ===================================================================== *)
(** ** Sample indexes and connections *)
(* ===================================================================== *)

Module Sample.

Definition posix : string -> string := Fnmatch.posix_normcase.

(** The hash family of the samples that hold range filters only: it is
    never called there. *)
Definition no_hashes (capacity : nat) (key : string) : list nat := [].

(** Two shards with a range filter on [account_balance]. *)
Definition balance_disk : Disk :=
  <["idx/B/account_balance.pickle" := FRange (VInt 2000) (VInt 5000)]>
    (<["idx/A/account_balance.pickle" := FRange (VInt 0) (VInt 1000)]> ∅).

Definition balance_walk : list walk_entry :=
  [([], []); (["A"], ["account_balance.pickle"]);
   (["B"], ["account_balance.pickle"])].

Definition balance_trie : Trie :=
  load_bloom_filters (disk_load balance_disk) (Some balance_walk)
                     "idx" "bloom" Trie_init.

(** Two shards of one region, both with a range filter that holds 700. *)
Definition region_disk : Disk :=
  <["idx/APAC_AUS_3/account_balance.pickle" := FRange (VInt 500) (VInt 900)]>
    (<["idx/APAC_AUS_0/account_balance.pickle" := FRange (VInt 0) (VInt 1000)]> ∅).

Definition region_walk : list walk_entry :=
  [([], []); (["APAC_AUS_0"], ["account_balance.pickle"]);
   (["APAC_AUS_3"], ["account_balance.pickle"])].

Definition region_trie : Trie :=
  load_bloom_filters (disk_load region_disk) (Some region_walk)
                     "idx" "bloom" Trie_init.

(** Two shards indexed from their frames: [S1] holds both statuses,
    [S2] only one. *)
Definition status_S1 : DataFrame :=
  [("account_status", StrSeries ["Active"; "Inactive"])].

Definition status_S2 : DataFrame :=
  [("account_status", StrSeries ["Active"])].

Definition status_disk (make_hashes : nat -> string -> list nat) : Disk :=
  (index_file make_hashes 1000 status_S2 "idx/S2"
     (index_file make_hashes 1000 status_S1 "idx/S1" ∅).1).1.

Definition status_walk : list walk_entry :=
  [([], []); (["S1"], ["account_status.pickle"]);
   (["S2"], ["account_status.pickle"])].

Definition status_trie (make_hashes : nat -> string -> list nat) : Trie :=
  load_bloom_filters (disk_load (status_disk make_hashes)) (Some status_walk)
                     "idx" "bloom" Trie_init.

(** A shard whose frame names its column in mixed case, as the
    generated data does. *)
Definition typed_frame : DataFrame :=
  [("Account_Type", StrSeries ["Savings"; "Loan"])].

Definition typed_disk (make_hashes : nat -> string -> list nat) : Disk :=
  (index_file make_hashes 1000 typed_frame "idx/APAC_AUS_0" ∅).1.

Definition typed_walk : list walk_entry :=
  [([], []); (["APAC_AUS_0"], ["account_type.pickle"])].

Definition typed_trie (make_hashes : nat -> string -> list nat) : Trie :=
  load_bloom_filters (disk_load (typed_disk make_hashes)) (Some typed_walk)
                     "idx" "bloom" Trie_init.

(** Two artifacts inserted in the two possible orders. *)
Definition path_S1 : list string := ["bloom"; "S1"; "account_status.pickle"].
Definition path_S2 : list string := ["bloom"; "S2"; "account_status.pickle"].
Definition file_S1 : string := "idx/S1/account_status.pickle".
Definition file_S2 : string := "idx/S2/account_status.pickle".

Definition trie_S1_S2 (pickle_load : string -> option FilterData) : Trie :=
  Trie_insert pickle_load
    (Trie_insert pickle_load Trie_init path_S1 (Some file_S1))
    path_S2 (Some file_S2).

Definition trie_S2_S1 (pickle_load : string -> option FilterData) : Trie :=
  Trie_insert pickle_load
    (Trie_insert pickle_load Trie_init path_S2 (Some file_S2))
    path_S1 (Some file_S1).

(** The frames [<ping format="text"></ping>],
    [<ping format="text"> hello </ping>] and
    [<status format="text">x</status>], and the elements [ET.fromstring]
    builds from them; any other text is not parsed here. *)
Definition empty_ping_frame : string :=
  "<ping format=" +:+ dquote +:+ "text" +:+ dquote +:+ "></ping>".

Definition empty_ping_element : Element :=
  mkElement "ping" [("format", "text")] None.

Definition hello_ping_frame : string :=
  "<ping format=" +:+ dquote +:+ "text" +:+ dquote +:+ "> hello </ping>".

Definition hello_ping_element : Element :=
  mkElement "ping" [("format", "text")] (Some " hello ").

Definition status_frame : string :=
  "<status format=" +:+ dquote +:+ "text" +:+ dquote +:+ ">x</status>".

Definition status_element : Element :=
  mkElement "status" [("format", "text")] (Some "x").

Definition ping_fromstring (xml_string : string) : option Element :=
  if String.eqb xml_string empty_ping_frame then Some empty_ping_element
  else if String.eqb xml_string hello_ping_frame then Some hello_ping_element
  else if String.eqb xml_string status_frame then Some status_element
  else None.

(** [json.dumps] on the one result the [ping] handler produces. *)
Definition ping_dumps (j : json) : string :=
  match j with
  | JDict [(_, JStr s)] =>
      "{" +:+ dquote +:+ "response" +:+ dquote +:+ ": "
          +:+ dquote +:+ s +:+ dquote +:+ "}"
  | _ => "null"
  end.

Definition ping_handlers : dict handler := [("ping", ping_handler ping_dumps)].

(** The trie of the docstring of [Trie.size]. *)
Definition docstring_trie : Trie :=
  Trie_insert (fun _ => None)
    (Trie_insert (fun _ => None) Trie_init ["path"; "to"; "file.txt"] None)
    ["path"; "to"; "another"; "file.txt"] None.

End Sample.

(* ===================================================================== *)
(** ** Reading a search without its side effects *)
(* ===================================================================== *)

(** [target] is the node found below [node] by following [names], one
    entry of [children] per name. *)
Inductive reaches : TrieNode -> list string -> TrieNode -> Prop :=
| reaches_here (node : TrieNode) : reaches node [] node
| reaches_child (node child target : TrieNode) (name : string)
    (names : list string) :
    In (name, child) (children node) ->
    reaches child names target ->
    reaches node (name :: names) target.

Section Reading.

Variable normcase : string -> string.
Variable pickle_load : string -> option FilterData.
Variable make_hashes : nat -> string -> list nat.

(** The hits [_dfs_search] appends for a node, read off the trie as it
    is, every filter taken as [_dfs_search] would report it. *)
Fixpoint hits_under (node : TrieNode) (path : list string) (index : nat)
    (current_path : list string) {struct node} : list hit :=
  match node with
  | mkNode cs eof bf fp =>
      match path !! index with
      | None =>
          if eof
          then [(OsPath.dirname (PyStr.join "/" current_path),
                 effective_filter pickle_load (mkNode cs eof bf fp))]
          else []
      | Some part =>
          flat_map
            (fun entry : string * TrieNode =>
               if Fnmatch.fnmatch normcase (fst entry) part
               then hits_under (snd entry) path (S index)
                               (current_path ++ [fst entry])
               else [])
            cs
      end
  end.

(** The hits of [Trie.search], read off the trie. *)
Definition hits_of (trie : Trie) (path : list string) : list hit :=
  hits_under (root trie) path 0 [] .

(** The loop over [rules[1:]] when no trie is threaded through. *)
Fixpoint answer_rules (answer : Query -> result (gset string))
    (condition : string) (rules : list Query) (matching_files : gset string)
    {struct rules} : result (gset string) :=
  match rules with
  | [] => Ok matching_files
  | rule :: rules' =>
      match answer rule with
      | Ok rule_files =>
          answer_rules answer condition rules'
                       (combine condition matching_files rule_files)
      | Raise e => Raise e
      end
  end.

(** The set a query stands for on a trie, read off the trie: the leaves
    use [hits_of] instead of [Trie.search]. *)
Fixpoint answer_of (query : Query) (source files : string) (trie : Trie)
    {struct query} : result (gset string) :=
  match query with
  | Leaf column value =>
      leaf_matches make_hashes value
                   (hits_of trie (leaf_pattern source files column)) ∅
  | Internal condition rules =>
      match rules with
      | [] => Ok ∅
      | rule0 :: rules' =>
          match answer_of rule0 source files trie with
          | Ok matching_files =>
              (fix rest (rules : list Query) (matching_files : gset string)
                 : result (gset string) :=
                 match rules with
                 | [] => Ok matching_files
                 | rule :: rules' =>
                     match answer_of rule source files trie with
                     | Ok rule_files =>
                         rest rules' (combine condition matching_files rule_files)
                     | Raise e => Raise e
                     end
                 end) rules' matching_files
          | Raise e => Raise e
          end
      end
  end.

End Reading.

(** A trie without its loaded filters: the nodes, their keys, their
    end-of-file marks and their locations. *)
Fixpoint skeleton (node : TrieNode) : TrieNode :=
  match node with
  | mkNode cs eof bf fp =>
      mkNode (map (fun entry : string * TrieNode =>
                     (fst entry, skeleton (snd entry))) cs)
             eof None fp
  end.

(** The insertions [load_bloom_filters] performs for the files of one
    directory, and for a whole listing: one per file whose name ends with
    [.pickle], in the order of the walk. *)
Definition file_insertions (root_directory bloom_source : string)
    (segments files : list string) : list (list string * option string) :=
  map (fun file =>
         ([bloom_source] ++ segments ++ [file],
          Some (OsPath.join (walk_directory root_directory segments) file)))
      (List.filter (fun file => PyStr.endswith file ".pickle") files).

Definition walk_insertions (root_directory bloom_source : string)
    (entries : list walk_entry) : list (list string * option string) :=
  flat_map (fun '(segments, files) =>
              file_insertions root_directory bloom_source segments files)
           entries.

(** The trie holds, at [path], a file end that was inserted with the
    artifact location [location]. *)
Definition registered (pickle_load : string -> option FilterData) (trie : Trie)
    (path : list string) (location : string) : Prop :=
  exists node,
    node_at (root trie) path = Some node
    /\ end_of_file node = true
    /\ file_path node = Some location
    /\ bloom_filter node = pickle_load location.

(** Insertions with a location, where two insertions at one path carry
    the same location. *)
Definition coherent (entries : list (list string * option string)) : Prop :=
  forall path fp, In (path, fp) entries ->
    (exists location, fp = Some location /\ location <> "")
    /\ forall fp', In (path, fp') entries -> fp' = fp.

(** ['  ' * depth] *)
Fixpoint indent (depth : nat) : string :=
  match depth with
  | O => ""
  | S depth' => "  " +:+ indent depth'
  end.

(** [Trie._dfs_discover]: the lines it prints, in order.
<<
    if node.end_of_file:
        print('  ' * depth + '/'.join(path))
    for part, child_node in node.children.items():
        print('  ' * depth + part)
        self._dfs_discover(child_node, path + [part], depth + 1)
>> *)
Fixpoint _dfs_discover (node : TrieNode) (path : list string) (depth : nat)
    {struct node} : list string :=
  match node with
  | mkNode cs eof bf fp =>
      (if eof then [indent depth +:+ PyStr.join "/" path] else [])
      ++ flat_map
           (fun entry : string * TrieNode =>
              (indent depth +:+ fst entry)
              :: _dfs_discover (snd entry) (path ++ [fst entry]) (S depth))
           cs
  end.

(** [Trie.discover] *)
Definition Trie_discover (trie : Trie) : list string :=
  _dfs_discover (root trie) [] 0.

(** The leading characters that satisfy [p]. *)
Fixpoint take_while (p : ascii -> bool) (l : list ascii) : list ascii :=
  match l with
  | [] => []
  | c :: l' => if p c then c :: take_while p l' else []
  end.

(** [posixpath.basename]: [p[p.rfind('/') + 1:]]. *)
Definition basename (p : string) : string :=
  PyStr.of_chars
    (rev (take_while (fun c => negb (OsPath.is_slash c)) (rev (PyStr.chars p)))).

(** [s.split(".")[0]]: the text before the first dot, or all of [s]. *)
Definition before_first_dot (s : string) : string :=
  PyStr.of_chars
    (take_while (fun c => negb (Ascii.eqb c "."%char)) (PyStr.chars s)).

(** [DataBlooming._create_bloom_path(file_path)]: the directory the
    filters of a shard go to.  [s3_bucket] is [None] unless it was given
    to the constructor, and [os.path.join] refuses [None].  (The local
    branch also creates the directory; the disk of this development holds
    files only.) *)
Definition _create_bloom_path (write_to_s3 : bool) (s3_bucket : option string)
    (output_dir file_path : string) : result string :=
  let shard := before_first_dot (basename file_path) in
  if write_to_s3 then
    match s3_bucket with
    | Some bucket => Ok (OsPath.join (OsPath.join bucket output_dir) shard)
    | None => Raise TypeError
    end
  else Ok (OsPath.join output_dir shard).

(* ===================================================================== *)
(** * Properties *)
(* ===================================================================== *)

(** ** The model at work *)

Example dirname_of_trie_path :
  OsPath.dirname (PyStr.join "/" ["bloom"; "APAC_AUS_0"; "account_status.pickle"])
  = "bloom/APAC_AUS_0".
Proof. reflexivity. Qed.

Example dirname_without_slash : OsPath.dirname "account_status.pickle" = "".
Proof. reflexivity. Qed.

Example join_str_splits_characters : PyStr.join_str "/" "ab/c" = "a/b///c".
Proof. reflexivity. Qed.

Example fnmatch_star_in_segment :
  Fnmatch.fnmatch Fnmatch.posix_normcase "APAC_AUS_0" "APAC_AUS_*" = true
  /\ Fnmatch.fnmatch Fnmatch.posix_normcase "EMEA_FR_0" "APAC_AUS_*" = false
  /\ Fnmatch.fnmatch Fnmatch.posix_normcase "loan.pickle" "loan*.pickle" = true
  /\ Fnmatch.fnmatch Fnmatch.posix_normcase "loan_status.pickle" "loan*.pickle" = true
  /\ Fnmatch.fnmatch Fnmatch.posix_normcase "S1" "S?" = true
  /\ Fnmatch.fnmatch Fnmatch.posix_normcase "S1" "S[0-3]" = true
  /\ Fnmatch.fnmatch Fnmatch.posix_normcase "S7" "S[!0-3]" = true
  /\ Fnmatch.fnmatch Fnmatch.posix_normcase "S[" "S[" = true.
Proof. repeat split; reflexivity. Qed.

(** The docstring of [Trie.size] counts six nodes, root included. *)
Example docstring_trie_size : Trie_size Sample.docstring_trie = 6%nat.
Proof. reflexivity. Qed.

(** An integer outside both ranges matches no shard, and a column that
    was never indexed matches none either. *)
Example range_exclusion :
  (execute_query_v2 Sample.posix (disk_load Sample.balance_disk) Sample.no_hashes
     (Leaf "account_balance" (VInt 1500)) "bloom" "*" Sample.balance_trie).2
  = Ok ∅
  /\ (execute_query_v2 Sample.posix (disk_load Sample.balance_disk) Sample.no_hashes
        (Leaf "nonexistent" (VStr "x")) "bloom" "*" Sample.balance_trie).2
     = Ok ∅.
Proof. split; vm_compute; reflexivity. Qed.

(** A complete [ping] frame is answered and the connection closed; a
    read that times out closes the connection without an answer, also
    after a complete frame of a class that has no handler. *)
Example ping_round_trip :
  handle_echo (fun _ => None) (fun _ => None) Sample.ping_fromstring 1
              Sample.ping_handlers [Data Sample.hello_ping_frame] Trie_init
  = Some (Trie_init,
          mkOutcome ["<ping>{" +:+ dquote +:+ "response" +:+ dquote +:+ ": "
                     +:+ dquote +:+ "alive" +:+ dquote +:+ "}</ping>"]
                    true None).
Proof. vm_compute. reflexivity. Qed.

Example read_timeout_closes :
  handle_echo (fun _ => None) (fun _ => None) Sample.ping_fromstring 5
              Sample.ping_handlers [Data "<ping for"; Timeout] Trie_init
  = Some (Trie_init, mkOutcome [] true None)
  /\ handle_echo (fun _ => None) (fun _ => None) Sample.ping_fromstring 5
                 Sample.ping_handlers [Data Sample.status_frame; Timeout] Trie_init
     = Some (Trie_init, mkOutcome [] true None).
Proof. split; vm_compute; reflexivity. Qed.

(** ** Range filters compare the value as it comes *)

Lemma py_le_raises_TypeError (a b : scalar) (e : exn) :
  py_le a b = Raise e -> e = TypeError.
Proof. destruct a, b; simpl; congruence. Qed.

Lemma py_between_raises_TypeError (lo v hi : scalar) (e : exn) :
  py_between lo v hi = Raise e -> e = TypeError.
Proof.
  unfold py_between, result_bind.
  destruct (py_le lo v) as [[|]|e'] eqn:Hle; intros H.
  - eauto using py_le_raises_TypeError.
  - discriminate.
  - inversion H; subst. eauto using py_le_raises_TypeError.
Qed.

Lemma filter_accepts_raises_TypeError make_hashes fd value e :
  filter_accepts make_hashes fd value = Raise e -> e = TypeError.
Proof.
  destruct fd; simpl; [discriminate|].
  apply py_between_raises_TypeError.
Qed.

Lemma leaf_matches_raises_TypeError make_hashes value hits acc e :
  leaf_matches make_hashes value hits acc = Raise e -> e = TypeError.
Proof.
  revert acc. induction hits as [|[path [fd|]] hits IH]; intros acc; simpl.
  - discriminate.
  - unfold result_bind.
    destruct (filter_accepts make_hashes fd value) as [[|]|e'] eqn:Hfd; eauto.
    intros H; inversion H; subst.
    eauto using filter_accepts_raises_TypeError.
  - eauto.
Qed.

(** C3, as the code has it.  A range filter does not parse the candidate:
    it compares the value it was given with [min] and [max].  Against
    integer bounds an integer value gives [min <= v <= max], and a string
    value raises [TypeError]; a leaf that meets such a filter among its
    hits ends with that exception instead of a set. *)
Theorem range_filter_compares_unparsed
    (make_hashes : nat -> string -> list nat) (hits : list hit)
    (acc : gset string) (path s : string) (lo hi : Z) :
  In (path, Some (FRange (VInt lo) (VInt hi))) hits ->
  leaf_matches make_hashes (VStr s) hits acc = Raise TypeError
  /\ filter_accepts make_hashes (FRange (VInt lo) (VInt hi)) (VStr s)
     = Raise TypeError
  /\ forall z, filter_accepts make_hashes (FRange (VInt lo) (VInt hi)) (VInt z)
               = Ok (Z.leb lo z && Z.leb z hi)%bool.
Proof.
  intros Hin. split; [|split].
  - revert acc. induction hits as [|[p [fd|]] hits IH]; intros acc.
    + destruct Hin.
    + simpl. unfold result_bind.
      destruct (filter_accepts make_hashes fd (VStr s)) as [[|]|e] eqn:Hfd.
      * destruct Hin as [Heq|Hin]; [|eauto].
        inversion Heq; subst. discriminate Hfd.
      * destruct Hin as [Heq|Hin]; [|eauto].
        inversion Heq; subst. discriminate Hfd.
      * f_equal. eauto using filter_accepts_raises_TypeError.
    + simpl. destruct Hin as [Heq|Hin]; [discriminate Heq|eauto].
  - reflexivity.
  - intros z. simpl. unfold py_between, result_bind. simpl.
    destruct (Z.leb lo z); reflexivity.
Qed.

Lemma range_filter_compares_unparsed_witness :
  leaf_matches Sample.no_hashes (VStr "1500")
    [("bloom/A", Some (FRange (VInt 0) (VInt 1000)))] ∅ = Raise TypeError
  /\ filter_accepts Sample.no_hashes (FRange (VInt 0) (VInt 1000)) (VStr "1500")
     = Raise TypeError
  /\ forall z, filter_accepts Sample.no_hashes (FRange (VInt 0) (VInt 1000)) (VInt z)
               = Ok (Z.leb 0 z && Z.leb z 1000)%bool.
Proof.
  apply (range_filter_compares_unparsed Sample.no_hashes
           [("bloom/A", Some (FRange (VInt 0) (VInt 1000)))] ∅ "bloom/A" "1500" 0 1000).
  simpl. left. reflexivity.
Defined.

(** C3, as the specification states it, fails: the leaf
    [{account_balance, "500"}] meets the range filter [0, 1000] of shard
    [A]; parsing would give 500, inside the range, yet the evaluation
    raises [TypeError] and returns no set at all. *)
Lemma range_leaf_string_value_raises :
  (execute_query_v2 Sample.posix (disk_load Sample.balance_disk) Sample.no_hashes
     (Leaf "account_balance" (VStr "500")) "bloom" "*" Sample.balance_trie).2
  = Raise TypeError.
Proof. vm_compute. reflexivity. Qed.

(** ** The JSON wrapping of handler results *)

(** C9, as the code has it.  [ensure_json_output] wraps a result exactly
    when it is a string: a string [s] is serialised as
    [{"response": s}], and every other result (a mapping, but also a
    list, a number, a boolean or [None]) is serialised as it is. *)
Theorem ensure_json_output_wraps_strings_only
    (json_dumps : json -> string)
    (func : TCPMessage -> Trie -> Trie * result json)
    (message : TCPMessage) (trie trie' : Trie) (res : json) :
  func message trie = (trie', Ok res) ->
  ensure_json_output json_dumps func message trie
  = (trie', Ok (json_dumps match res with
                           | JStr s => JDict [("response", JStr s)]
                           | other => other
                           end)).
Proof.
  intros Hfunc. unfold ensure_json_output. rewrite Hfunc.
  destruct res; reflexivity.
Qed.

Lemma ensure_json_output_wraps_strings_only_witness :
  ensure_json_output Sample.ping_dumps ping
    (mkTCPMessage "ping" (Some "text") (JStr "hello")) Trie_init
  = (Trie_init, Ok (Sample.ping_dumps (JDict [("response", JStr "alive")]))).
Proof.
  apply (ensure_json_output_wraps_strings_only Sample.ping_dumps ping
           (mkTCPMessage "ping" (Some "text") (JStr "hello"))
           Trie_init Trie_init (JStr "alive")).
  reflexivity.
Defined.

(** C9, as the specification states it, fails: a list is not a mapping,
    yet the wrapper leaves the list of shard identifiers that the search
    handler returns as it is and does not put it under ["response"]. *)
Lemma json_wrap_leaves_lists_unwrapped :
  json_wrap (JList [JStr "APAC_AUS_0"; JStr "APAC_AUS_3"])
  = JList [JStr "APAC_AUS_0"; JStr "APAC_AUS_3"]
  /\ json_wrap (JList [JStr "APAC_AUS_0"; JStr "APAC_AUS_3"])
     <> JDict [("response", JList [JStr "APAC_AUS_0"; JStr "APAC_AUS_3"])].
Proof. split; [reflexivity | discriminate]. Qed.

(** ** The connection handler *)

Lemma endswith_empty_closing_tag (message_type : string) :
  PyStr.endswith "" ("</" +:+ message_type +:+ ">") = false.
Proof. reflexivity. Qed.

Lemma no_known_tag_in_empty_buffer (handlers : dict handler) :
  ends_with_known_tag handlers "" = false.
Proof.
  unfold ends_with_known_tag.
  induction handlers as [|[message_type h] handlers IH]; simpl; [reflexivity|].
  exact IH.
Qed.

Lemma append_empty_r (s : string) : s +:+ "" = s.
Proof.
  induction s as [|c s IH]; [reflexivity|].
  change (String c (s +:+ "") = String c s). f_equal. exact IH.
Qed.

(** At the end of the stream every read returns the empty chunk, the
    buffer stays as it is, and the loop goes round again. *)
Lemma accumulate_at_end_of_stream (handlers : dict handler) (buffer : string) :
  ends_with_known_tag handlers buffer = false ->
  forall fuel, accumulate fuel handlers buffer [] = None.
Proof.
  intros Hno fuel. induction fuel as [|fuel IH]; [reflexivity|].
  cbn [accumulate read]. rewrite append_empty_r, Hno. exact IH.
Qed.

(** C8 on the code: when the peer closes its side before a closing tag
    has arrived, the loop of [handle_echo] never ends, whatever number of
    rounds it is given: the connection is neither closed nor answered.
    This holds for a peer that sends nothing and for one that sends the
    start of a frame. *)
Theorem handle_echo_spins_at_end_of_stream
    (json_loads : string -> option json)
    (b64decode_utf8 : string -> option string)
    (fromstring : string -> option Element)
    (handlers : dict handler) (trie : Trie) (fuel : nat) :
  handle_echo json_loads b64decode_utf8 fromstring fuel handlers [] trie = None
  /\ handle_echo json_loads b64decode_utf8 fromstring fuel Sample.ping_handlers
                 [Data "<ping format="] trie = None.
Proof.
  split.
  - unfold handle_echo.
    rewrite accumulate_at_end_of_stream; [reflexivity|].
    apply no_known_tag_in_empty_buffer.
  - unfold handle_echo. destruct fuel as [|fuel]; [reflexivity|].
    cbn [accumulate read].
    change (ends_with_known_tag Sample.ping_handlers ("" +:+ "<ping format="))
      with false.
    cbn iota.
    rewrite accumulate_at_end_of_stream; reflexivity.
Qed.

(** A message comes out of [parse_message] only for a frame whose element
    has a text. *)
Lemma parse_message_ok_has_text
    (json_loads : string -> option json)
    (b64decode_utf8 : string -> option string)
    (fromstring : string -> option Element)
    (xml_string : string) (message : TCPMessage) :
  parse_message json_loads b64decode_utf8 fromstring xml_string = Ok message ->
  exists root_elem t,
    fromstring xml_string = Some root_elem /\ text root_elem = Some t.
Proof.
  unfold parse_message.
  destruct (fromstring xml_string) as [root_elem|]; [|discriminate].
  destruct (text root_elem) as [t|] eqn:Htext; [eauto|discriminate].
Qed.

(** C10.  A frame whose element has no text makes [parse_message] raise
    [AttributeError] instead of returning a message with an empty payload;
    this is not the [ParseError] that [handle_echo] catches, so the
    exception escapes the handler, which neither replies nor closes the
    writer.  A message is returned only for a frame that has a text. *)
Theorem parse_message_without_text_escapes
    (json_loads : string -> option json)
    (b64decode_utf8 : string -> option string)
    (fromstring : string -> option Element)
    (fuel : nat) (handlers : dict handler) (r : reader) (trie : Trie)
    (buffer : string) (root_elem : Element) :
  accumulate fuel handlers "" r = Some (Framed buffer) ->
  fromstring buffer = Some root_elem ->
  text root_elem = None ->
  parse_message json_loads b64decode_utf8 fromstring buffer = Raise AttributeError
  /\ AttributeError <> ParseError
  /\ handle_echo json_loads b64decode_utf8 fromstring fuel handlers r trie
     = Some (trie, mkOutcome [] false (Some AttributeError))
  /\ (forall xml_string message,
        parse_message json_loads b64decode_utf8 fromstring xml_string = Ok message ->
        exists elem t, fromstring xml_string = Some elem /\ text elem = Some t).
Proof.
  intros Hacc Hparse Htext.
  assert (Hraise : parse_message json_loads b64decode_utf8 fromstring buffer
                   = Raise AttributeError).
  { unfold parse_message. rewrite Hparse, Htext. reflexivity. }
  split; [exact Hraise|]. split; [discriminate|]. split.
  - unfold handle_echo. rewrite Hacc, Hraise. reflexivity.
  - intros xml_string message. apply parse_message_ok_has_text.
Qed.

Lemma parse_message_without_text_escapes_witness :
  parse_message (fun _ => None) (fun _ => None) Sample.ping_fromstring
                Sample.empty_ping_frame = Raise AttributeError
  /\ AttributeError <> ParseError
  /\ handle_echo (fun _ => None) (fun _ => None) Sample.ping_fromstring 1
                 Sample.ping_handlers [Data Sample.empty_ping_frame] Trie_init
     = Some (Trie_init, mkOutcome [] false (Some AttributeError))
  /\ (forall xml_string message,
        parse_message (fun _ => None) (fun _ => None) Sample.ping_fromstring
                      xml_string = Ok message ->
        exists elem t,
          Sample.ping_fromstring xml_string = Some elem /\ text elem = Some t).
Proof.
  apply (parse_message_without_text_escapes (fun _ => None) (fun _ => None)
           Sample.ping_fromstring 1 Sample.ping_handlers
           [Data Sample.empty_ping_frame] Trie_init
           Sample.empty_ping_frame Sample.empty_ping_element).
  - vm_compute. reflexivity.
  - vm_compute. reflexivity.
  - reflexivity.
Defined.

(** ** Filters have no false negatives *)

Section BloomFacts.

Variable make_hashes : nat -> string -> list nat.

Lemma bloom_contains_spec (bf : BloomFilter) (key : string) :
  bloom_contains make_hashes bf key = true
  <-> forall k, In k (make_hashes (bf_capacity bf) key) -> k ∈ bf_bits bf.
Proof.
  unfold bloom_contains. rewrite forallb_forall. split; intros H k Hk.
  - specialize (H k Hk). now apply bool_decide_eq_true in H.
  - apply bool_decide_eq_true. now apply H.
Qed.

Lemma bloom_add_inv (bf bf' : BloomFilter) (key : string) :
  bloom_add make_hashes bf key = Ok bf' ->
  bf_capacity bf' = bf_capacity bf
  /\ bf_bits bf' = bf_bits bf ∪ list_to_set (make_hashes (bf_capacity bf) key)
  /\ (bf_count bf' <= S (bf_count bf))%nat.
Proof.
  unfold bloom_add.
  destruct (Nat.ltb (bf_capacity bf) (bf_count bf)); [discriminate|].
  intros H; inversion H; subst; clear H. simpl.
  repeat split. destruct (bloom_contains make_hashes bf key); lia.
Qed.

Lemma bloom_add_total (bf : BloomFilter) (key : string) :
  (bf_count bf <= bf_capacity bf)%nat ->
  exists bf', bloom_add make_hashes bf key = Ok bf'.
Proof.
  intros Hle. unfold bloom_add.
  destruct (Nat.ltb (bf_capacity bf) (bf_count bf)) eqn:Hlt.
  - apply Nat.ltb_lt in Hlt. lia.
  - eauto.
Qed.

Lemma bloom_add_contains (bf bf' : BloomFilter) (key : string) :
  bloom_add make_hashes bf key = Ok bf' ->
  bloom_contains make_hashes bf' key = true.
Proof.
  intros Hadd. apply bloom_add_inv in Hadd as (Hcap & Hbits & _).
  apply bloom_contains_spec. intros k Hk. rewrite Hbits, Hcap in *.
  apply elem_of_union_r, elem_of_list_to_set, list_elem_of_In. exact Hk.
Qed.

Lemma bloom_add_keeps (bf bf' : BloomFilter) (key key' : string) :
  bloom_add make_hashes bf key = Ok bf' ->
  bloom_contains make_hashes bf key' = true ->
  bloom_contains make_hashes bf' key' = true.
Proof.
  intros Hadd Hin. apply bloom_add_inv in Hadd as (Hcap & Hbits & _).
  rewrite bloom_contains_spec in *. intros k Hk.
  rewrite Hbits. rewrite Hcap in Hk. apply elem_of_union_l. now apply Hin.
Qed.

(** Every key that was added is found afterwards. *)
Lemma bloom_add_all_contains (keys : list string) :
  forall bf bf', bloom_add_all make_hashes bf keys = Ok bf' ->
  (forall key, In key keys -> bloom_contains make_hashes bf' key = true)
  /\ (forall key, bloom_contains make_hashes bf key = true ->
                  bloom_contains make_hashes bf' key = true).
Proof.
  induction keys as [|key keys IH]; intros bf bf' Hall; simpl in Hall.
  - inversion Hall; subst. split; [intros key []|auto].
  - unfold result_bind in Hall.
    destruct (bloom_add make_hashes bf key) as [bf1|e] eqn:Hadd; [|discriminate].
    destruct (IH _ _ Hall) as [Hnew Hold]. split.
    + intros key' [->|Hin]; [|auto].
      apply Hold. eapply bloom_add_contains; eauto.
    + intros key' Hin. apply Hold. eapply bloom_add_keeps; eauto.
Qed.

(** A filter with room for the keys accepts all of them. *)
Lemma bloom_add_all_total (keys : list string) :
  forall bf, (bf_count bf + length keys <= S (bf_capacity bf))%nat ->
  exists bf', bloom_add_all make_hashes bf keys = Ok bf'.
Proof.
  induction keys as [|key keys IH]; intros bf Hroom; simpl in *.
  - eauto.
  - destruct (bloom_add_total bf key) as [bf1 Hadd]; [lia|].
    rewrite Hadd. simpl.
    apply bloom_add_inv in Hadd as (Hcap & _ & Hcount).
    apply IH. rewrite Hcap. lia.
Qed.

End BloomFacts.

Lemma series_min_le (cells : list Z) (z : Z) :
  In z cells -> series_min cells <= z.
Proof.
  unfold series_min. generalize (hd 0 cells) as d.
  induction cells as [|c cells IH]; intros d Hin; [destruct Hin|].
  simpl. destruct Hin as [->|Hin]; [lia|].
  specialize (IH d Hin). lia.
Qed.

Lemma series_max_ge (cells : list Z) (z : Z) :
  In z cells -> z <= series_max cells.
Proof.
  unfold series_max. generalize (hd 0 cells) as d.
  induction cells as [|c cells IH]; intros d Hin; [destruct Hin|].
  simpl. destruct Hin as [->|Hin]; [lia|].
  specialize (IH d Hin). lia.
Qed.

Section FilterFacts.

Variable make_hashes : nat -> string -> list nat.
Variable range_filter_threshold : nat.

(** The filter of a column that is not empty is always built when the
    column goes to a Bloom filter (the capacity is the row count). *)
Lemma column_filter_bloom (s : Series) :
  (range_dtype s && Nat.ltb range_filter_threshold (nunique s))%bool = false ->
  series_items s <> [] ->
  exists bloom,
    column_filter make_hashes range_filter_threshold s = Ok (FBloom bloom)
    /\ forall v, In v (series_items s) ->
                 bloom_contains make_hashes bloom (py_str v) = true.
Proof.
  intros Hsel Hne. unfold column_filter. rewrite Hsel.
  destruct (series_items s) as [|v0 items] eqn:Hitems; [congruence|].
  simpl length. simpl bloom_new. unfold result_bind at 1.
  destruct (bloom_add_all_total make_hashes (map py_str (v0 :: items))
              (mkBloom (S (length items)) 0 ∅)) as [bloom Hall].
  { simpl. rewrite length_map. lia. }
  rewrite Hall. simpl. exists bloom. split; [reflexivity|].
  intros v Hin.
  destruct (bloom_add_all_contains make_hashes _ _ _ Hall) as [Hfound _].
  apply Hfound. change (In (py_str v) (map py_str (v0 :: items))).
  apply in_map. exact Hin.
Qed.

(** The filter written for a column accepts every value of the column,
    when the leaf carries the value itself (or, for a Bloom filter, its
    string form). *)
Lemma column_filter_no_false_negative (s : Series) (fd : FilterData) (v : scalar) :
  column_filter make_hashes range_filter_threshold s = Ok fd ->
  In v (series_items s) ->
  filter_accepts make_hashes fd v = Ok true.
Proof.
  unfold column_filter. intros Hfd Hin.
  destruct (range_dtype s && Nat.ltb range_filter_threshold (nunique s))%bool eqn:Hsel.
  - destruct s as [cells|cells]; [|discriminate Hsel].
    simpl in Hfd. inversion Hfd; subst; clear Hfd.
    simpl in Hin. apply in_map_iff in Hin as (z & <- & Hz).
    simpl. unfold py_between, result_bind. simpl.
    pose proof (series_min_le cells z Hz). pose proof (series_max_ge cells z Hz).
    destruct (Z.leb_spec (series_min cells) z); [|lia].
    destruct (Z.leb_spec z (series_max cells)); [reflexivity|lia].
  - unfold result_bind in Hfd.
    destruct (bloom_new (length (series_items s))) as [b0|e] eqn:Hnew; [|discriminate].
    destruct (bloom_add_all make_hashes b0 (map py_str (series_items s)))
      as [bloom|e] eqn:Hall; [|discriminate].
    inversion Hfd; subst; clear Hfd. simpl. f_equal.
    destruct (bloom_add_all_contains make_hashes _ _ _ Hall) as [Hfound _].
    apply Hfound. apply in_map. exact Hin.
Qed.

End FilterFacts.

(** ** Insertion into the trie *)

Lemma dict_get_set_eq {V} (k : string) (v : V) (d : dict V) :
  dict_get k (dict_set k v d) = Some v.
Proof.
  induction d as [|[k' v'] d IH]; simpl.
  - now rewrite String.eqb_refl.
  - destruct (String.eqb k k') eqn:Hk; simpl; rewrite Hk; [reflexivity|exact IH].
Qed.

Lemma dict_get_set_ne {V} (k k' : string) (v : V) (d : dict V) :
  k <> k' -> dict_get k' (dict_set k v d) = dict_get k' d.
Proof.
  intros Hne. induction d as [|[k0 v0] d IH]; simpl.
  - destruct (String.eqb k' k) eqn:Hk; [|reflexivity].
    apply String.eqb_eq in Hk. congruence.
  - destruct (String.eqb k k0) eqn:Hk; simpl.
    + apply String.eqb_eq in Hk. subst k0.
      destruct (String.eqb k' k) eqn:Hk'; [|reflexivity].
      apply String.eqb_eq in Hk'. congruence.
    + destruct (String.eqb k' k0); [reflexivity|exact IH].
Qed.

Section InsertFacts.

Variable pickle_load : string -> option FilterData.

Lemma node_at_insert_from (path : list string) (fp : string) :
  fp <> "" ->
  forall node, exists terminal,
    node_at (insert_from pickle_load node path (Some fp)) path = Some terminal
    /\ end_of_file terminal = true
    /\ file_path terminal = Some fp
    /\ bloom_filter terminal = pickle_load fp.
Proof.
  intros Hfp.
  assert (Htruthy : truthy (Some fp) = true).
  { simpl. destruct (String.eqb fp "") eqn:E; [|reflexivity].
    apply String.eqb_eq in E. congruence. }
  induction path as [|part path IH]; intros node.
  - cbn [insert_from node_at]. rewrite Htruthy.
    eexists. split; [reflexivity|]. simpl. auto.
  - cbn [insert_from node_at]. cbn [children set_children].
    rewrite dict_get_set_eq. apply IH.
Qed.

(** C6, as the code has it.  [insert] with an artifact location walks
    and creates the nodes, marks the terminal node, stores the location
    and reads the artifact at once: the [bloom_filter] slot of the
    terminal node holds what [load_bloom_filter] returned for the
    location, so it is populated as soon as [insert] returns whenever
    the artifact can be loaded. *)
Theorem insert_loads_artifact (trie : Trie) (path : list string) (fp : string) :
  fp <> "" ->
  exists terminal,
    node_at (root (Trie_insert pickle_load trie path (Some fp))) path = Some terminal
    /\ end_of_file terminal = true
    /\ file_path terminal = Some fp
    /\ bloom_filter terminal = load_bloom_filter pickle_load (Some fp).
Proof.
  intros Hfp. unfold Trie_insert. cbn [root load_bloom_filter].
  apply node_at_insert_from. exact Hfp.
Qed.

End InsertFacts.

Lemma insert_loads_artifact_witness :
  exists terminal,
    node_at (root (Trie_insert (disk_load Sample.balance_disk) Trie_init
                               ["bloom"; "A"; "account_balance.pickle"]
                               (Some "idx/A/account_balance.pickle")))
            ["bloom"; "A"; "account_balance.pickle"] = Some terminal
    /\ end_of_file terminal = true
    /\ file_path terminal = Some "idx/A/account_balance.pickle"
    /\ bloom_filter terminal
       = load_bloom_filter (disk_load Sample.balance_disk)
                           (Some "idx/A/account_balance.pickle").
Proof.
  apply (insert_loads_artifact (disk_load Sample.balance_disk) Trie_init
           ["bloom"; "A"; "account_balance.pickle"]
           "idx/A/account_balance.pickle").
  discriminate.
Defined.

(** C6, as the specification states it, fails: right after the insertion
    of the artifact of shard [A], and before any search, the terminal
    node already holds the range filter read from the disk. *)
Lemma insert_populates_bloom_filter :
  node_at (root (Trie_insert (disk_load Sample.balance_disk) Trie_init
                             ["bloom"; "A"; "account_balance.pickle"]
                             (Some "idx/A/account_balance.pickle")))
          ["bloom"; "A"; "account_balance.pickle"]
    ≫= bloom_filter
  = Some (FRange (VInt 0) (VInt 1000)).
Proof. vm_compute. reflexivity. Qed.

(** C7 on the code.  The two orders of inserting the artifacts of [S1]
    and [S2] give different tries: the inner node [bloom] is created by
    whichever insertion comes first and keeps that insertion's artifact
    location in [file_path] (an inner node stands for no file, and the
    documentation of [TrieNode] gives such a node no location). *)
Theorem insertion_order_changes_trie (pickle_load : string -> option FilterData) :
  node_at (root (Sample.trie_S1_S2 pickle_load)) ["bloom"] ≫= file_path
  = Some Sample.file_S1
  /\ node_at (root (Sample.trie_S2_S1 pickle_load)) ["bloom"] ≫= file_path
     = Some Sample.file_S2
  /\ Sample.trie_S1_S2 pickle_load <> Sample.trie_S2_S1 pickle_load.
Proof.
  assert (H12 : node_at (root (Sample.trie_S1_S2 pickle_load)) ["bloom"]
                  ≫= file_path = Some Sample.file_S1) by reflexivity.
  assert (H21 : node_at (root (Sample.trie_S2_S1 pickle_load)) ["bloom"]
                  ≫= file_path = Some Sample.file_S2) by reflexivity.
  split; [exact H12|]. split; [exact H21|].
  intros Heq. rewrite Heq, H21 in H12. discriminate H12.
Qed.

(** ** Leaves of a query *)

Section LeafFacts.

Variable normcase : string -> string.
Variable pickle_load : string -> option FilterData.
Variable make_hashes : nat -> string -> list nat.

(** The result of a leaf is the loop over the hits of the search. *)
Lemma execute_leaf_result (column : string) (value : scalar)
    (source files : string) (trie : Trie) :
  (execute_query_v2 normcase pickle_load make_hashes (Leaf column value)
                    source files trie).2
  = leaf_matches make_hashes value
      (Trie_search normcase pickle_load trie
                   (leaf_pattern source files column)).2 ∅.
Proof.
  cbn [execute_query_v2].
  destruct (Trie_search normcase pickle_load trie
                        (leaf_pattern source files column)).
  reflexivity.
Qed.

End LeafFacts.

(** C2 on the code.  The hits of the search already carry the directory
    portion of the matched path ([bloom/APAC_AUS_0]); the leaf joins the
    characters of that string with [/] and takes the directory portion
    once more.  The identifier it emits is neither the shard identifier
    nor the directory portion of the trie path, and the two shards of the
    region end up under one and the same identifier. *)
Theorem leaf_emits_mangled_identifier (make_hashes : nat -> string -> list nat) :
  map fst (Trie_search Sample.posix (disk_load Sample.region_disk)
             Sample.region_trie
             (leaf_pattern "bloom" "APAC_AUS_*" "account_balance")).2
  = ["bloom/APAC_AUS_0"; "bloom/APAC_AUS_3"]
  /\ emitted_id "bloom/APAC_AUS_0" = "b/l/o/o/m///A/P/A/C/_/A/U/S/_"
  /\ emitted_id "bloom/APAC_AUS_3" = "b/l/o/o/m///A/P/A/C/_/A/U/S/_"
  /\ (execute_query_v2 Sample.posix (disk_load Sample.region_disk) make_hashes
        (Leaf "account_balance" (VInt 700)) "bloom" "APAC_AUS_*"
        Sample.region_trie).2
     = Ok {[ "b/l/o/o/m///A/P/A/C/_/A/U/S/_" ]}.
Proof.
  split; [vm_compute; reflexivity|].
  split; [vm_compute; reflexivity|].
  split; [vm_compute; reflexivity|].
  rewrite execute_leaf_result. vm_compute. reflexivity.
Qed.

(** The disks of the samples, once the Bloom filters are built. *)
Lemma typed_disk_built (make_hashes : nat -> string -> list nat) :
  exists bloom,
    Sample.typed_disk make_hashes
    = <["idx/APAC_AUS_0/account_type.pickle" := FBloom bloom]> ∅
    /\ bloom_contains make_hashes bloom "Savings" = true.
Proof.
  destruct (column_filter_bloom make_hashes 1000 (StrSeries ["Savings"; "Loan"]))
    as (bloom & Hbloom & Hfound); [reflexivity|discriminate|].
  exists bloom. split.
  - unfold Sample.typed_disk, Sample.typed_frame. cbn [index_file].
    rewrite Hbloom. vm_compute. reflexivity.
  - apply (Hfound (VStr "Savings")). simpl. auto.
Qed.

Lemma status_disk_built (make_hashes : nat -> string -> list nat) :
  exists bloom1 bloom2,
    Sample.status_disk make_hashes
    = <["idx/S2/account_status.pickle" := FBloom bloom2]>
        (<["idx/S1/account_status.pickle" := FBloom bloom1]> ∅)
    /\ bloom_contains make_hashes bloom1 "Inactive" = true.
Proof.
  destruct (column_filter_bloom make_hashes 1000 (StrSeries ["Active"; "Inactive"]))
    as (bloom1 & Hbloom1 & Hfound1); [reflexivity|discriminate|].
  destruct (column_filter_bloom make_hashes 1000 (StrSeries ["Active"]))
    as (bloom2 & Hbloom2 & _); [reflexivity|discriminate|].
  exists bloom1, bloom2. split.
  - unfold Sample.status_disk, Sample.status_S1, Sample.status_S2.
    cbn [index_file]. rewrite Hbloom1. cbn [index_file fst].
    rewrite Hbloom2. vm_compute. reflexivity.
  - apply (Hfound1 (VStr "Inactive")). simpl. auto.
Qed.

(** C5 on the code.  The leaf hands the column to the search as it is
    written in the query: for the column [Account_Type] the third segment
    of the pattern is [Account_Type*.pickle].  The indexer wrote the
    artifact of that column under the lower-cased name, which this
    pattern does not match where [fnmatch] keeps case, and the leaf finds
    nothing, although the same leaf with the column in lower case finds
    the shard. *)
Theorem leaf_pattern_keeps_column_case (make_hashes : nat -> string -> list nat) :
  leaf_pattern "bloom" "*" "Account_Type" = ["bloom"; "*"; "Account_Type*.pickle"]
  /\ filter_file_path "idx/APAC_AUS_0" "Account_Type"
     = "idx/APAC_AUS_0/account_type.pickle"
  /\ is_Some (Sample.typed_disk make_hashes !! "idx/APAC_AUS_0/account_type.pickle")
  /\ Fnmatch.fnmatch Sample.posix "account_type.pickle" "Account_Type*.pickle" = false
  /\ (execute_query_v2 Sample.posix (disk_load (Sample.typed_disk make_hashes))
        make_hashes (Leaf "Account_Type" (VStr "Savings")) "bloom" "*"
        (Sample.typed_trie make_hashes)).2
     = Ok ∅
  /\ (execute_query_v2 Sample.posix (disk_load (Sample.typed_disk make_hashes))
        make_hashes (Leaf "account_type" (VStr "Savings")) "bloom" "*"
        (Sample.typed_trie make_hashes)).2
     = Ok {[ "b/l/o/o/m///A/P/A/C/_/A/U/S/_" ]}.
Proof.
  destruct (typed_disk_built make_hashes) as (bloom & Hdisk & Hfound).
  unfold Sample.typed_trie. rewrite Hdisk.
  split; [reflexivity|].
  split; [vm_compute; reflexivity|].
  split; [rewrite lookup_insert_eq; eauto|].
  split; [vm_compute; reflexivity|].
  split.
  - rewrite execute_leaf_result. vm_compute. reflexivity.
  - rewrite execute_leaf_result.
    assert (Hhits :
      (Trie_search Sample.posix
         (disk_load (<["idx/APAC_AUS_0/account_type.pickle" := FBloom bloom]> ∅))
         (load_bloom_filters
            (disk_load (<["idx/APAC_AUS_0/account_type.pickle" := FBloom bloom]> ∅))
            (Some Sample.typed_walk) "idx" "bloom" Trie_init)
         (leaf_pattern "bloom" "*" "account_type")).2
      = [("bloom/APAC_AUS_0", Some (FBloom bloom))])
      by (vm_compute; reflexivity).
    rewrite Hhits. cbn [leaf_matches filter_accepts py_str].
    rewrite Hfound. cbn [result_bind]. vm_compute. reflexivity.
Qed.

(** Where [os.path.normcase] folds case, the pattern of the same leaf does
    match the artifact. *)
Lemma mixed_case_pattern_matches_under_nt_normcase :
  Fnmatch.fnmatch Fnmatch.nt_normcase "account_type.pickle" "Account_Type*.pickle"
  = true.
Proof. vm_compute. reflexivity. Qed.

(** C1 on the code.  Shard [S1] is indexed with the value [Inactive] in
    its column [account_status], and its Bloom filter does contain that
    value; yet the set the leaf returns for it, under patterns that match
    the shard, holds neither the shard identifier [S1] nor the directory
    portion [bloom/S1] of its trie path, but the one string that the
    leaf derives from every shard named [S] followed by a character. *)
Theorem leaf_result_misses_indexed_shard (make_hashes : nat -> string -> list nat) :
  In (VStr "Inactive") (series_items (StrSeries ["Active"; "Inactive"]))
  /\ (execute_query_v2 Sample.posix (disk_load (Sample.status_disk make_hashes))
        make_hashes (Leaf "account_status" (VStr "Inactive")) "bloom" "*"
        (Sample.status_trie make_hashes)).2
     = Ok {[ "b/l/o/o/m///S" ]}
  /\ ("S1" ∉ ({[ "b/l/o/o/m///S" ]} : gset string))
  /\ ("bloom/S1" ∉ ({[ "b/l/o/o/m///S" ]} : gset string)).
Proof.
  split; [simpl; auto|].
  split; [|split; rewrite elem_of_singleton; discriminate].
  destruct (status_disk_built make_hashes) as (bloom1 & bloom2 & Hdisk & Hfound).
  unfold Sample.status_trie. rewrite Hdisk.
  rewrite execute_leaf_result.
  match goal with
  | |- leaf_matches _ _ ?hits _ = _ =>
      assert (Hhits : hits = [("bloom/S1", Some (FBloom bloom1));
                              ("bloom/S2", Some (FBloom bloom2))])
        by (vm_compute; reflexivity);
      rewrite Hhits
  end.
  cbn [leaf_matches filter_accepts py_str].
  rewrite Hfound. cbn [result_bind].
  destruct (bloom_contains make_hashes bloom2 "Inactive");
    vm_compute; reflexivity.
Qed.

(** ** Internal nodes of a query *)

Section RuleFacts.

Variable eval : Query -> Trie -> Trie * result (gset string).
Variable condition : string.

(** One more rule at the end: the rules before it are evaluated as
    before, then the new rule, from the trie they left. *)
Lemma eval_rules_app (rules : list Query) (r : Query) :
  forall trie acc,
    eval_rules eval condition (rules ++ [r]) trie acc
    = match eval_rules eval condition rules trie acc with
      | (trie1, Ok s) =>
          match eval r trie1 with
          | (trie2, Ok rule_files) => (trie2, Ok (combine condition s rule_files))
          | (trie2, Raise e) => (trie2, Raise e)
          end
      | (trie1, Raise e) => (trie1, Raise e)
      end.
Proof.
  induction rules as [|rule rules IH]; intros trie acc; cbn [eval_rules app].
  - destruct (eval r trie) as [trie2 [rule_files|e]]; reflexivity.
  - destruct (eval rule trie) as [trie' [rule_files|e]]; [apply IH|reflexivity].
Qed.

End RuleFacts.

Lemma combine_and (s rule_files : gset string) :
  combine "AND" s rule_files = s ∩ rule_files.
Proof. reflexivity. Qed.

Lemma combine_or (s rule_files : gset string) :
  combine "OR" s rule_files = s ∪ rule_files.
Proof. reflexivity. Qed.

(** C4, as the code has it.  Appending a rule to an ['AND'] node that
    already has a rule never enlarges the result, and appending a rule to
    an ['OR'] node never shrinks it: when the longer node evaluates to a
    set, so does the shorter one, and the two sets are included as said. *)
Theorem rules_monotone
    (normcase : string -> string) (pickle_load : string -> option FilterData)
    (make_hashes : nat -> string -> list nat)
    (condition : string) (rules : list Query) (r : Query)
    (source files : string) (trie : Trie) (s' : gset string) :
  (condition = "AND" -> rules <> []) ->
  (execute_query_v2 normcase pickle_load make_hashes
     (Internal condition (rules ++ [r])) source files trie).2 = Ok s' ->
  exists s,
    (execute_query_v2 normcase pickle_load make_hashes
       (Internal condition rules) source files trie).2 = Ok s
    /\ (condition = "AND" -> s' ⊆ s)
    /\ (condition = "OR" -> s ⊆ s').
Proof.
  intros Hne Hlong. destruct rules as [|rule0 rules].
  - exists ∅. split; [reflexivity|]. split.
    + intros Hand. destruct (Hne Hand). reflexivity.
    + intros _. apply empty_subseteq.
  - cbn [app execute_query_v2] in *.
    destruct (execute_query_v2 normcase pickle_load make_hashes rule0 source files trie)
      as [trie0 [matching_files|e]]; [|discriminate Hlong].
    rewrite eval_rules_app in Hlong.
    destruct (eval_rules
                (fun rule => execute_query_v2 normcase pickle_load make_hashes
                               rule source files)
                condition rules trie0 matching_files) as [trie1 [s|e]];
      [|discriminate Hlong].
    destruct (execute_query_v2 normcase pickle_load make_hashes r source files trie1)
      as [trie2 [rule_files|e]]; [|discriminate Hlong].
    cbn [snd] in Hlong. inversion Hlong; subst s'; clear Hlong.
    exists s. split; [reflexivity|]. split; intros ->.
    + rewrite combine_and. apply intersection_subseteq_l.
    + rewrite combine_or. apply union_subseteq_l.
Qed.

Lemma rules_monotone_witness :
  exists s,
    (execute_query_v2 Sample.posix (disk_load Sample.balance_disk) Sample.no_hashes
       (Internal "AND" [Leaf "account_balance" (VInt 500)])
       "bloom" "*" Sample.balance_trie).2 = Ok s
    /\ ("AND" = "AND" -> ({[ "b/l/o/o/m" ]} : gset string) ⊆ s)
    /\ ("AND" = "OR" -> s ⊆ ({[ "b/l/o/o/m" ]} : gset string)).
Proof.
  apply (rules_monotone Sample.posix (disk_load Sample.balance_disk) Sample.no_hashes
           "AND" [Leaf "account_balance" (VInt 500)]
           (Leaf "account_balance" (VInt 700))
           "bloom" "*" Sample.balance_trie {[ "b/l/o/o/m" ]}).
  - intros _. discriminate.
  - vm_compute. reflexivity.
Defined.

(** C4, as the specification states it, fails on an ['AND'] node without
    rules: the node evaluates to the empty set, and with one rule appended
    it evaluates to what that rule matches, which is not empty here. *)
Lemma empty_and_grows_with_a_rule :
  (execute_query_v2 Sample.posix (disk_load Sample.balance_disk) Sample.no_hashes
     (Internal "AND" []) "bloom" "*" Sample.balance_trie).2 = Ok ∅
  /\ (execute_query_v2 Sample.posix (disk_load Sample.balance_disk) Sample.no_hashes
        (Internal "AND" ([] ++ [Leaf "account_balance" (VInt 500)]))
        "bloom" "*" Sample.balance_trie).2 = Ok {[ "b/l/o/o/m" ]}
  /\ ~ (({[ "b/l/o/o/m" ]} : gset string) ⊆ ∅).
Proof.
  split; [reflexivity|]. split; [vm_compute; reflexivity|].
  intros Hsub. apply (not_elem_of_empty (C:=gset string) "b/l/o/o/m").
  apply Hsub, elem_of_singleton. reflexivity.
Qed.

(** ** The search finds every matching artifact *)

Section VisitFacts.

Context {A : Type}.
Variable visit : string -> TrieNode -> list A -> TrieNode * list A.

(** The body of the loop only appends to the accumulator. *)
Hypothesis visit_extends :
  forall key child acc, exists extra, (visit key child acc).2 = acc ++ extra.

Lemma visit_children_extends (cs : dict TrieNode) :
  forall acc, exists extra, (visit_children visit cs acc).2 = acc ++ extra.
Proof.
  induction cs as [|[key child] cs IH]; intros acc; cbn [visit_children].
  - exists []. now rewrite app_nil_r.
  - destruct (visit_extends key child acc) as [extra1 H1].
    destruct (visit key child acc) as [child' acc1]. cbn [snd] in H1. subst acc1.
    destruct (IH (acc ++ extra1)) as [extra2 H2].
    destruct (visit_children visit cs (acc ++ extra1)) as [cs' acc2].
    cbn [snd] in *. subst acc2. exists (extra1 ++ extra2).
    now rewrite app_assoc.
Qed.

(** What the body produces for the child found under a key is still there
    when the loop is over. *)
Lemma visit_children_keeps (x : A) (name : string) (child : TrieNode)
    (cs : dict TrieNode) :
  dict_get name cs = Some child ->
  (forall acc, In x (visit name child acc).2) ->
  forall acc, In x (visit_children visit cs acc).2.
Proof.
  intros Hget Hvisit.
  induction cs as [|[key c] cs IH]; intros acc; [discriminate Hget|].
  cbn [visit_children dict_get] in *.
  destruct (String.eqb name key) eqn:Hkey.
  - apply String.eqb_eq in Hkey. subst key. inversion Hget; subst c.
    specialize (Hvisit acc).
    destruct (visit name child acc) as [child' acc1]. cbn [snd] in Hvisit.
    destruct (visit_children_extends cs acc1) as [extra Hextra].
    destruct (visit_children visit cs acc1) as [cs' acc2].
    cbn [snd] in *. subst acc2. apply in_or_app. now left.
  - destruct (visit key c acc) as [c' acc1].
    specialize (IH Hget acc1).
    destruct (visit_children visit cs acc1) as [cs' acc2].
    exact IH.
Qed.

End VisitFacts.

Section SearchFacts.

Variable normcase : string -> string.
Variable pickle_load : string -> option FilterData.

Lemma dfs_search_extends (path : list string) :
  forall k node index current_path results,
    (length path - index <= k)%nat ->
    exists extra,
      (_dfs_search normcase pickle_load node path index current_path results).2
      = results ++ extra.
Proof.
  induction k as [|k IH]; intros node index current_path results Hk;
    destruct node as [cs eof bf fp]; cbn [_dfs_search].
  - rewrite (lookup_ge_None_2 path index) by lia.
    destruct eof; cbn [snd]; [eauto|].
    exists []. now rewrite app_nil_r.
  - destruct (path !! index) as [part|] eqn:Hpart.
    + apply lookup_lt_Some in Hpart.
      match goal with
      | |- context [visit_children ?v cs results] =>
          destruct (visit_children_extends v) with (cs := cs) (acc := results)
            as [extra Hextra]
      end.
      { intros key child acc.
        destruct (Fnmatch.fnmatch normcase key part).
        - apply IH. lia.
        - exists []. cbn [snd]. now rewrite app_nil_r. }
      match goal with
      | |- context [visit_children ?v cs results] =>
          destruct (visit_children v cs results) as [cs' results']
      end.
      cbn [snd] in *. eauto.
    + destruct eof; cbn [snd]; [eauto|].
      exists []. now rewrite app_nil_r.
Qed.

(** A terminal node whose path matches the pattern, segment by segment,
    is among the hits, with the directory portion of its path and with
    its filter. *)
Lemma dfs_search_finds (path : list string) (fd : FilterData)
    (target : TrieNode) (names : list string) :
  end_of_file target = true ->
  effective_filter pickle_load target = Some fd ->
  forall node index current_path results,
    node_at node names = Some target ->
    Forall2 (fun name part => Fnmatch.fnmatch normcase name part = true)
            names (drop index path) ->
    In (OsPath.dirname (PyStr.join "/" (current_path ++ names)), Some fd)
       (_dfs_search normcase pickle_load node path index current_path results).2.
Proof.
  intros Heof Hfilter.
  induction names as [|name names IH];
    intros node index current_path results Hat Hmatch;
    destruct node as [cs eof bf fp]; cbn [_dfs_search].
  - apply Forall2_nil_inv_l in Hmatch as Hdrop.
    assert (Hnone : path !! index = None).
    { pose proof (lookup_drop path index 0) as Hl.
      rewrite Hdrop in Hl. rewrite Nat.add_0_r in Hl. now rewrite <- Hl. }
    rewrite Hnone. cbn [node_at] in Hat. inversion Hat; subst target.
    cbn [end_of_file] in Heof. subst eof.
    unfold effective_filter in Hfilter. cbn [bloom_filter file_path] in Hfilter.
    cbn [snd]. rewrite app_nil_r. apply in_or_app. right. left.
    f_equal. destruct bf; exact Hfilter.
  - apply Forall2_cons_inv_l in Hmatch as (part & rest & Hname & Hrest & Hdrop).
    assert (Hpart : path !! index = Some part).
    { pose proof (lookup_drop path index 0) as Hl.
      rewrite Hdrop in Hl. rewrite Nat.add_0_r in Hl. now rewrite <- Hl. }
    assert (Hnext : drop (S index) path = rest).
    { rewrite (drop_S path part index Hpart) in Hdrop. now inversion Hdrop. }
    rewrite Hpart. cbn [node_at children] in Hat.
    destruct (dict_get name cs) as [child|] eqn:Hchild; [|discriminate Hat].
    match goal with
    | |- context [visit_children ?v cs results] =>
        assert (Hextends : forall key c acc, exists extra,
                   (v key c acc).2 = acc ++ extra);
        [|pose proof (visit_children_keeps v Hextends
                        (OsPath.dirname
                           (PyStr.join "/" (current_path ++ name :: names)),
                         Some fd)
                        name child cs) as Hkeeps;
          destruct (visit_children v cs results) as [cs' results'] eqn:Hvisit]
    end.
    { intros key c acc. cbn beta.
      destruct (Fnmatch.fnmatch normcase key part).
      - apply (dfs_search_extends path (length path)). lia.
      - exists []. cbn [snd]. now rewrite app_nil_r. }
    cbn [snd].
    match type of Hvisit with
    | visit_children ?v cs results = _ =>
        change results' with (cs', results').2; rewrite <- Hvisit
    end.
    apply Hkeeps.
    + exact Hchild.
    + intros acc. cbn beta. rewrite Hname.
      replace (current_path ++ name :: names)
        with ((current_path ++ [name]) ++ names)
        by (now rewrite <- app_assoc).
      apply IH; [exact Hat|]. rewrite Hnext. exact Hrest.
Qed.

(** The same for [Trie.search]. *)
Lemma search_finds (trie : Trie) (path names : list string) (fd : FilterData)
    (target : TrieNode) :
  node_at (root trie) names = Some target ->
  end_of_file target = true ->
  effective_filter pickle_load target = Some fd ->
  Forall2 (fun name part => Fnmatch.fnmatch normcase name part = true) names path ->
  In (OsPath.dirname (PyStr.join "/" names), Some fd)
     (Trie_search normcase pickle_load trie path).2.
Proof.
  intros Hat Heof Hfilter Hmatch. unfold Trie_search.
  pose proof (dfs_search_finds path fd target names Heof Hfilter
                (root trie) 0%nat [] [] Hat Hmatch) as Hin.
  destruct (_dfs_search normcase pickle_load (root trie) path 0 [] [])
    as [root' results].
  exact Hin.
Qed.

End SearchFacts.

(** A leaf that ends with a set has kept what it had and added the
    identifier of every hit whose filter accepts the value. *)
Lemma leaf_matches_includes (make_hashes : nat -> string -> list nat)
    (value : scalar) (hits : list hit) :
  forall acc s,
    leaf_matches make_hashes value hits acc = Ok s ->
    acc ⊆ s
    /\ forall path fd,
         In (path, Some fd) hits ->
         filter_accepts make_hashes fd value = Ok true ->
         emitted_id path ∈ s.
Proof.
  induction hits as [|[path0 [fd0|]] hits IH]; intros acc s Hleaf;
    cbn [leaf_matches] in Hleaf.
  - inversion Hleaf; subst. split; [reflexivity|]. intros path fd [].
  - unfold result_bind in Hleaf.
    destruct (filter_accepts make_hashes fd0 value) as [[|]|e] eqn:Hfd0;
      [| |discriminate Hleaf].
    + destruct (IH _ _ Hleaf) as [Hsub Hhits]. split.
      { intros x Hx. apply Hsub, elem_of_union_l, Hx. }
      intros path fd [Heq|Hin] Hacc; [|eauto].
      inversion Heq; subst.
      apply Hsub, elem_of_union_r, elem_of_singleton. reflexivity.
    + destruct (IH _ _ Hleaf) as [Hsub Hhits]. split; [exact Hsub|].
      intros path fd [Heq|Hin] Hacc; [|eauto].
      inversion Heq; subst. congruence.
  - destruct (IH _ _ Hleaf) as [Hsub Hhits]. split; [exact Hsub|].
    intros path fd [Heq|Hin] Hacc; [discriminate Heq|eauto].
Qed.

Section BuildFacts.

Variable pickle_load : string -> option FilterData.

(** An insertion leaves the nodes of the other paths as they are, up to
    their children. *)
Lemma insert_from_preserves (observed : list string) :
  forall (path : list string) (fp : option string) (node x : TrieNode),
    node_at node observed = Some x ->
    observed <> path ->
    exists x',
      node_at (insert_from pickle_load node path fp) observed = Some x'
      /\ end_of_file x' = end_of_file x
      /\ bloom_filter x' = bloom_filter x
      /\ file_path x' = file_path x.
Proof.
  induction observed as [|name observed IH]; intros path fp node x Hat Hne.
  - cbn [node_at] in Hat. inversion Hat; subst x.
    destruct path as [|part path]; [congruence|].
    cbn [insert_from node_at]. eexists. split; [reflexivity|].
    cbn. auto.
  - cbn [node_at] in Hat.
    destruct (dict_get name (children node)) as [child|] eqn:Hchild;
      [|discriminate Hat].
    destruct path as [|part path].
    + cbn [insert_from]. exists x. split; [|auto].
      assert (Hsame : forall n, children n = children node ->
                node_at n (name :: observed) = Some x).
      { intros n Hn. cbn [node_at]. rewrite Hn, Hchild. exact Hat. }
      destruct (truthy fp); apply Hsame; reflexivity.
    + cbn [insert_from node_at]. cbn [children set_children].
      destruct (String.eqb part name) eqn:Hpart.
      * apply String.eqb_eq in Hpart. subst part.
        rewrite dict_get_set_eq, Hchild.
        apply IH; [exact Hat|congruence].
      * apply String.eqb_neq in Hpart.
        rewrite dict_get_set_ne by exact Hpart. rewrite Hchild.
        exists x. auto.
Qed.

Lemma insert_all_preserves (observed : list string)
    (entries : list (list string * option string)) :
  Forall (fun entry => fst entry <> observed) entries ->
  forall (trie : Trie) (x : TrieNode),
    node_at (root trie) observed = Some x ->
    exists x',
      node_at (root (insert_all pickle_load trie entries)) observed = Some x'
      /\ end_of_file x' = end_of_file x
      /\ bloom_filter x' = bloom_filter x
      /\ file_path x' = file_path x.
Proof.
  induction 1 as [|[path fp] entries Hne _ IH]; intros trie x Hat.
  - exists x. auto.
  - cbn [insert_all foldl]. cbn [fst] in Hne.
    destruct (insert_from_preserves observed path fp (root trie) x Hat)
      as (x1 & Hat1 & Heof1 & Hbf1 & Hfp1); [congruence|].
    destruct (IH (Trie_insert pickle_load trie path fp) x1 Hat1)
      as (x' & Hat' & Heof' & Hbf' & Hfp').
    exists x'. split; [exact Hat'|]. repeat split; congruence.
Qed.

End BuildFacts.

(** X28.  No false negative, up to the identifier.  Take a column of a shard,
    the filter [index_file] builds for it, and a trie into which the
    artifact of the column was inserted, whatever was inserted before it
    and whatever other paths were inserted after it.  A leaf on a value
    of the column, under patterns that match the three segments of the
    artifact, returns (when it returns a set) a set that holds the
    identifier the leaf derives from the path of that artifact. *)
Theorem indexed_value_is_found
    (normcase : string -> string) (pickle_load : string -> option FilterData)
    (make_hashes : nat -> string -> list nat) (range_filter_threshold : nat)
    (s : Series) (fd : FilterData) (v : scalar)
    (trie0 : Trie) (source shard file fp : string)
    (later : list (list string * option string))
    (source_pattern files column : string) (matching_files : gset string) :
  column_filter make_hashes range_filter_threshold s = Ok fd ->
  In v (series_items s) ->
  fp <> "" ->
  pickle_load fp = Some fd ->
  Forall (fun entry => fst entry <> [source; shard; file]) later ->
  Fnmatch.fnmatch normcase source source_pattern = true ->
  Fnmatch.fnmatch normcase shard files = true ->
  Fnmatch.fnmatch normcase file (column +:+ "*.pickle") = true ->
  (execute_query_v2 normcase pickle_load make_hashes (Leaf column v)
     source_pattern files
     (insert_all pickle_load
        (Trie_insert pickle_load trie0 [source; shard; file] (Some fp))
        later)).2 = Ok matching_files ->
  emitted_id (OsPath.dirname (PyStr.join "/" [source; shard; file]))
    ∈ matching_files.
Proof.
  intros Hfd Hv Hfp Hload Hlater Hsource Hshard Hfile Hleaf.
  destruct (node_at_insert_from pickle_load [source; shard; file] fp Hfp (root trie0))
    as (terminal & Hat & Heof & _ & Hbf).
  destruct (insert_all_preserves pickle_load [source; shard; file] later Hlater
              (Trie_insert pickle_load trie0 [source; shard; file] (Some fp))
              terminal Hat)
    as (target & Hat' & Heof' & Hbf' & _).
  rewrite execute_leaf_result in Hleaf.
  apply leaf_matches_includes in Hleaf as [_ Hhits].
  apply (Hhits _ fd).
  - apply (search_finds normcase pickle_load _ _ [source; shard; file] fd target).
    + exact Hat'.
    + congruence.
    + unfold effective_filter. rewrite Hbf', Hbf, Hload. reflexivity.
    + unfold leaf_pattern. repeat constructor; assumption.
  - eapply column_filter_no_false_negative; eauto.
Qed.

(** The statement at work on the two shards with range filters: 500 is a
    value of the column of shard [A]. *)
Example indexed_value_is_found_on_ranges :
  emitted_id (OsPath.dirname
                (PyStr.join "/" ["bloom"; "A"; "account_balance.pickle"]))
    ∈ ({[ "b/l/o/o/m" ]} : gset string).
Proof.
  apply (indexed_value_is_found Sample.posix (disk_load Sample.balance_disk)
           Sample.no_hashes 2 (IntSeries [0; 500; 1000])
           (FRange (VInt 0) (VInt 1000)) (VInt 500)
           Trie_init "bloom" "A" "account_balance.pickle"
           "idx/A/account_balance.pickle"
           [(["bloom"; "B"; "account_balance.pickle"],
             Some "idx/B/account_balance.pickle")]
           "bloom" "*" "account_balance" {[ "b/l/o/o/m" ]}).
  - vm_compute. reflexivity.
  - simpl. auto.
  - discriminate.
  - vm_compute. reflexivity.
  - repeat constructor. discriminate.
  - vm_compute. reflexivity.
  - vm_compute. reflexivity.
  - vm_compute. reflexivity.
  - vm_compute. reflexivity.
Defined.

(* ===================================================================== *)
(** * Further properties of the sources *)
(* ===================================================================== *)

(** ** Induction over tries and queries *)

Lemma TrieNode_nested_ind (P : TrieNode -> Prop) :
  (forall cs eof bf fp,
      Forall (fun entry => P (snd entry)) cs -> P (mkNode cs eof bf fp)) ->
  forall node, P node.
Proof.
  intros Hnode. fix IH 1. intros [cs eof bf fp]. apply Hnode.
  induction cs as [|[key child] cs IHcs]; constructor; [apply IH | exact IHcs].
Qed.

Lemma Query_nested_ind (P : Query -> Prop) :
  (forall column value, P (Leaf column value)) ->
  (forall condition rules, Forall P rules -> P (Internal condition rules)) ->
  forall query, P query.
Proof.
  intros Hleaf Hinternal. fix IH 1.
  intros [column value|condition rules]; [apply Hleaf|apply Hinternal].
  induction rules as [|rule rules IHrules]; constructor; [apply IH | exact IHrules].
Qed.

(** ** The loop over the children, entry by entry *)

Section VisitEntries.

Context {A : Type}.
Variable visit : string -> TrieNode -> list A -> TrieNode * list A.

(** When the body appends [f entry] for every entry, the loop appends
    them all, in order. *)
Lemma visit_children_appends (f : string * TrieNode -> list A)
    (cs : dict TrieNode) :
  Forall (fun entry => forall acc,
              (visit (fst entry) (snd entry) acc).2 = acc ++ f entry) cs ->
  forall acc, (visit_children visit cs acc).2 = acc ++ flat_map f cs.
Proof.
  induction 1 as [|[key child] cs Hentry _ IH]; intros acc;
    cbn [visit_children flat_map].
  - now rewrite app_nil_r.
  - specialize (Hentry acc). cbn [fst snd] in Hentry.
    destruct (visit key child acc) as [child' acc1]. cbn [snd] in Hentry.
    specialize (IH acc1).
    destruct (visit_children visit cs acc1) as [cs' acc2]. cbn [snd] in *.
    rewrite IH, Hentry. now rewrite app_assoc.
Qed.

(** The loop keeps the keys, and any reading of the entries that the body
    keeps. *)
Lemma visit_children_keeps_reading {B : Type} (g : string * TrieNode -> list B)
    (cs : dict TrieNode) :
  Forall (fun entry => forall acc,
              g (fst entry, (visit (fst entry) (snd entry) acc).1) = g entry) cs ->
  forall acc, flat_map g (visit_children visit cs acc).1 = flat_map g cs.
Proof.
  induction 1 as [|[key child] cs Hentry _ IH]; intros acc;
    cbn [visit_children flat_map]; [reflexivity|].
  specialize (Hentry acc). cbn [fst snd] in Hentry.
  destruct (visit key child acc) as [child' acc1]. cbn [fst] in Hentry.
  specialize (IH acc1).
  destruct (visit_children visit cs acc1) as [cs' acc2]. cbn [fst] in *.
  cbn [flat_map]. now rewrite Hentry, IH.
Qed.

(** A body that leaves alone what it has already visited makes a loop
    that does. *)
Lemma visit_children_again (cs : dict TrieNode) :
  Forall (fun entry => forall acc acc',
              (visit (fst entry) (visit (fst entry) (snd entry) acc).1 acc').1
              = (visit (fst entry) (snd entry) acc).1) cs ->
  forall acc acc',
    (visit_children visit (visit_children visit cs acc).1 acc').1
    = (visit_children visit cs acc).1.
Proof.
  induction 1 as [|[key child] cs Hentry _ IH]; intros acc acc';
    cbn [visit_children]; [reflexivity|].
  cbn [fst snd] in Hentry.
  destruct (visit key child acc) as [child' acc1] eqn:Hvisit.
  destruct (visit_children visit cs acc1) as [cs' acc2] eqn:Hrest.
  cbn [fst visit_children].
  specialize (Hentry acc acc'). rewrite Hvisit in Hentry. cbn [fst] in Hentry.
  destruct (visit key child' acc') as [child'' acc1'] eqn:Hvisit'.
  cbn [fst] in Hentry. subst child''.
  specialize (IH acc1 acc1'). rewrite Hrest in IH. cbn [fst] in IH.
  destruct (visit_children visit cs' acc1') as [cs'' acc2'].
  cbn [fst] in *. now subst cs''.
Qed.

End VisitEntries.

(** ** What a search reads and what it leaves *)

Section ReadingFacts.

Variable normcase : string -> string.
Variable pickle_load : string -> option FilterData.

Lemma effective_filter_after_load (cs : dict TrieNode) (eof : bool)
    (bf : option FilterData) (fp : option string) :
  effective_filter pickle_load
    (mkNode cs eof match bf with
                   | None => load_bloom_filter pickle_load fp
                   | Some _ => bf
                   end fp)
  = effective_filter pickle_load (mkNode cs eof bf fp).
Proof.
  unfold effective_filter. cbn [bloom_filter file_path].
  destruct bf; [reflexivity|].
  destruct (load_bloom_filter pickle_load fp); reflexivity.
Qed.

Lemma dfs_search_reads (node : TrieNode) :
  forall path index current_path results,
    (_dfs_search normcase pickle_load node path index current_path results).2
    = results ++ hits_under normcase pickle_load node path index current_path.
Proof.
  induction node as [cs eof bf fp IH] using TrieNode_nested_ind.
  intros path index current_path results. cbn [_dfs_search hits_under].
  destruct (path !! index) as [part|].
  - match goal with
    | |- context [visit_children ?v cs results] =>
        pose proof (visit_children_appends v
          (fun entry : string * TrieNode =>
             if Fnmatch.fnmatch normcase (fst entry) part
             then hits_under normcase pickle_load (snd entry) path (S index)
                             (current_path ++ [fst entry])
             else []) cs) as Happ;
        destruct (visit_children v cs results) as [cs' results'] eqn:Hvisit
    end.
    cbn [snd]. change results' with (cs', results').2. rewrite <- Hvisit.
    apply Happ. eapply Forall_impl; [exact IH|].
    intros [key child] Hchild acc. cbn [fst snd] in *.
    destruct (Fnmatch.fnmatch normcase key part); [apply Hchild|].
    cbn [snd]. now rewrite app_nil_r.
  - destruct eof; cbn [snd]; [|now rewrite app_nil_r].
    rewrite <- effective_filter_after_load.
    unfold effective_filter at 1. cbn [bloom_filter file_path].
    destruct bf; [reflexivity|].
    destruct (load_bloom_filter pickle_load fp); reflexivity.
Qed.

Lemma dfs_search_keeps_hits (node : TrieNode) :
  forall path index current_path results path' index' current_path',
    hits_under normcase pickle_load
      (_dfs_search normcase pickle_load node path index current_path results).1
      path' index' current_path'
    = hits_under normcase pickle_load node path' index' current_path'.
Proof.
  induction node as [cs eof bf fp IH] using TrieNode_nested_ind.
  intros path index current_path results path' index' current_path'.
  cbn [_dfs_search].
  destruct (path !! index) as [part|].
  - match goal with
    | |- context [visit_children ?v cs results] =>
        pose proof (fun B g => visit_children_keeps_reading (B:=B) v g cs) as Hkeep;
        destruct (visit_children v cs results) as [cs' results'] eqn:Hvisit
    end.
    cbn [fst hits_under].
    destruct (path' !! index') as [part'|].
    + change cs' with (cs', results').1. rewrite <- Hvisit.
      apply Hkeep. eapply Forall_impl; [exact IH|].
      intros [key child] Hchild acc. cbn [fst snd] in *.
      destruct (Fnmatch.fnmatch normcase key part'); [|reflexivity].
      destruct (Fnmatch.fnmatch normcase key part); [apply Hchild|reflexivity].
    + destruct eof; reflexivity.
  - destruct eof; cbn [fst]; [|reflexivity].
    cbn [hits_under]. destruct (path' !! index'); [reflexivity|].
    now rewrite effective_filter_after_load.
Qed.

Lemma dfs_search_again (node : TrieNode) :
  forall path index current_path results results',
    (_dfs_search normcase pickle_load
       (_dfs_search normcase pickle_load node path index current_path results).1
       path index current_path results').1
    = (_dfs_search normcase pickle_load node path index current_path results).1.
Proof.
  induction node as [cs eof bf fp IH] using TrieNode_nested_ind.
  intros path index current_path results results'.
  cbn [_dfs_search].
  destruct (path !! index) as [part|] eqn:Hpart.
  - match goal with
    | |- context [visit_children ?v cs results] =>
        pose proof (visit_children_again v cs) as Hagain;
        destruct (visit_children v cs results) as [cs' results1] eqn:Hvisit
    end.
    cbn [fst _dfs_search]. rewrite Hpart.
    match goal with
    | |- context [visit_children ?v cs' results'] =>
        destruct (visit_children v cs' results') as [cs'' results2] eqn:Hvisit'
    end.
    cbn [fst]. f_equal.
    change cs'' with (cs'', results2).1. rewrite <- Hvisit'.
    change cs' with (cs', results1).1. rewrite <- Hvisit.
    apply Hagain. eapply Forall_impl; [exact IH|].
    intros [key child] Hchild acc acc'. cbn [fst snd] in *.
    destruct (Fnmatch.fnmatch normcase key part) eqn:Hmatch.
    + apply Hchild.
    + cbn [fst]. reflexivity.
  - destruct eof; cbn [fst _dfs_search]; rewrite Hpart; [|reflexivity].
    cbn [fst]. f_equal.
    destruct bf; [reflexivity|].
    destruct (load_bloom_filter pickle_load fp); reflexivity.
Qed.

End ReadingFacts.

Lemma flat_map_singleton {A B : Type} (f : A -> B) (l : list A) :
  flat_map (fun x => [f x]) l = map f l.
Proof. induction l as [|x l IH]; cbn; [reflexivity | now rewrite IH]. Qed.

Section SearchProperties.

Variable normcase : string -> string.
Variable pickle_load : string -> option FilterData.

Lemma dfs_search_keeps_skeleton (node : TrieNode) :
  forall path index current_path results,
    skeleton (_dfs_search normcase pickle_load node path index current_path results).1
    = skeleton node.
Proof.
  induction node as [cs eof bf fp IH] using TrieNode_nested_ind.
  intros path index current_path results. cbn [_dfs_search].
  destruct (path !! index) as [part|].
  - match goal with
    | |- context [visit_children ?v cs results] =>
        pose proof (visit_children_keeps_reading v
                      (fun entry : string * TrieNode =>
                         [(fst entry, skeleton (snd entry))]) cs) as Hkeep;
        destruct (visit_children v cs results) as [cs' results'] eqn:Hvisit
    end.
    cbn [fst skeleton]. f_equal.
    rewrite <- !flat_map_singleton.
    change cs' with (cs', results').1. rewrite <- Hvisit.
    apply Hkeep. eapply Forall_impl; [exact IH|].
    intros [key child] Hchild acc. cbn [fst snd] in *.
    destruct (Fnmatch.fnmatch normcase key part); [|reflexivity].
    now rewrite Hchild.
  - destruct eof; reflexivity.
Qed.

(** X1.  A search changes the result of no later search: the filters it
    loads on the way are the ones a later search would load itself, so
    the hits of a search are the same on the trie as it was and on the
    trie an earlier search, whatever its pattern, has left. *)
Theorem search_leaves_later_hits_unchanged (trie : Trie)
    (earlier later : list string) :
  (Trie_search normcase pickle_load
     (Trie_search normcase pickle_load trie earlier).1 later).2
  = (Trie_search normcase pickle_load trie later).2.
Proof.
  unfold Trie_search.
  pose proof (dfs_search_keeps_hits normcase pickle_load (root trie) earlier 0 [] []
                later 0%nat []) as Hkeeps.
  destruct (_dfs_search normcase pickle_load (root trie) earlier 0 [] [])
    as [root' results].
  cbn [fst snd root] in *.
  pose proof (dfs_search_reads normcase pickle_load root' later 0 [] [])
    as Hreads'.
  pose proof (dfs_search_reads normcase pickle_load (root trie) later 0 [] [])
    as Hreads.
  destruct (_dfs_search normcase pickle_load root' later 0 [] [])
    as [root1 results1].
  destruct (_dfs_search normcase pickle_load (root trie) later 0 [] [])
    as [root2 results2].
  cbn [fst snd] in *. congruence.
Qed.

(** X2.  A second search with the same pattern returns the same hits and
    leaves the trie as the first search left it; and a search changes
    nothing in a trie but [bloom_filter] slots. *)
Theorem search_twice (trie : Trie) (path : list string) :
  Trie_search normcase pickle_load
              (Trie_search normcase pickle_load trie path).1 path
  = Trie_search normcase pickle_load trie path
  /\ skeleton (root (Trie_search normcase pickle_load trie path).1)
     = skeleton (root trie).
Proof.
  unfold Trie_search.
  pose proof (dfs_search_reads normcase pickle_load (root trie) path 0 [] [])
    as Hreads.
  pose proof (dfs_search_keeps_hits normcase pickle_load (root trie) path 0 [] []
                path 0%nat []) as Hkeeps.
  pose proof (dfs_search_again normcase pickle_load (root trie) path 0 [] [] [])
    as Hagain.
  pose proof (dfs_search_keeps_skeleton (root trie) path 0 [] []) as Hskel.
  destruct (_dfs_search normcase pickle_load (root trie) path 0 [] [])
    as [root' results].
  cbn [fst snd root] in *. split; [|exact Hskel].
  pose proof (dfs_search_reads normcase pickle_load root' path 0 [] [])
    as Hreads'.
  destruct (_dfs_search normcase pickle_load root' path 0 [] [])
    as [root'' results'].
  cbn [fst snd] in *. subst root''. f_equal.
  rewrite Hreads', Hkeeps, <- Hreads. reflexivity.
Qed.

Lemma hits_under_sound (node : TrieNode) :
  forall path index current_path h,
    In h (hits_under normcase pickle_load node path index current_path) ->
    exists names target,
      reaches node names target
      /\ Forall2 (fun name part => Fnmatch.fnmatch normcase name part = true)
                 names (drop index path)
      /\ end_of_file target = true
      /\ h = (OsPath.dirname (PyStr.join "/" (current_path ++ names)),
              effective_filter pickle_load target).
Proof.
  induction node as [cs eof bf fp IH] using TrieNode_nested_ind.
  intros path index current_path h Hin. cbn [hits_under] in Hin.
  destruct (path !! index) as [part|] eqn:Hpart.
  - apply in_flat_map in Hin as ([key child] & Hentry & Hin).
    cbn [fst snd] in Hin.
    destruct (Fnmatch.fnmatch normcase key part) eqn:Hmatch; [|destruct Hin].
    pose proof (proj1 (List.Forall_forall _ _) IH _ Hentry) as Hchild.
    cbn [snd] in Hchild.
    destruct (Hchild _ _ _ _ Hin) as (names & target & Hreach & Hnames & Heof & ->).
    exists (key :: names), target. split; [|split; [|split]].
    + econstructor; [exact Hentry|exact Hreach].
    + rewrite (drop_S path part index Hpart). constructor; assumption.
    + exact Heof.
    + now rewrite <- app_assoc.
  - destruct eof; [|destruct Hin]. destruct Hin as [<-|[]].
    exists [], (mkNode cs true bf fp). split; [constructor|].
    split; [|split; [reflexivity|now rewrite app_nil_r]].
    apply lookup_ge_None in Hpart. rewrite drop_ge by exact Hpart. constructor.
Qed.

Lemma hits_under_complete (node target : TrieNode) (names : list string) :
  reaches node names target ->
  end_of_file target = true ->
  forall path index current_path,
    Forall2 (fun name part => Fnmatch.fnmatch normcase name part = true)
            names (drop index path) ->
    In (OsPath.dirname (PyStr.join "/" (current_path ++ names)),
        effective_filter pickle_load target)
       (hits_under normcase pickle_load node path index current_path).
Proof.
  intros Hreach Heof.
  induction Hreach as [node|node child target name names Hentry Hreach IH];
    intros path index current_path Hnames;
    destruct node as [cs eof bf fp]; cbn [hits_under].
  - apply Forall2_nil_inv_l in Hnames.
    assert (Hnone : path !! index = None).
    { pose proof (lookup_drop path index 0) as Hl.
      rewrite Hnames in Hl. rewrite Nat.add_0_r in Hl. now rewrite <- Hl. }
    rewrite Hnone. cbn [end_of_file] in Heof. subst eof.
    rewrite app_nil_r. now left.
  - apply Forall2_cons_inv_l in Hnames as (part & rest & Hname & Hrest & Hdrop).
    assert (Hpart : path !! index = Some part).
    { pose proof (lookup_drop path index 0) as Hl.
      rewrite Hdrop in Hl. rewrite Nat.add_0_r in Hl. now rewrite <- Hl. }
    rewrite Hpart. apply in_flat_map. exists (name, child).
    split; [exact Hentry|]. cbn [fst snd]. rewrite Hname.
    replace (current_path ++ name :: names)
      with ((current_path ++ [name]) ++ names) by (now rewrite <- app_assoc).
    apply (IH Heof).
    rewrite (drop_S path part index Hpart) in Hdrop.
    inversion Hdrop; subst. exact Hrest.
Qed.

(** X3.  The hits of [Trie.search] are exactly the end-of-file nodes whose
    path has as many segments as the pattern and matches it segment by
    segment; each comes with the directory portion of its path and with
    its filter. *)
Theorem search_hits_characterised (trie : Trie) (path : list string) (h : hit) :
  In h (Trie_search normcase pickle_load trie path).2
  <-> exists names target,
        reaches (root trie) names target
        /\ Forall2 (fun name part => Fnmatch.fnmatch normcase name part = true)
                   names path
        /\ end_of_file target = true
        /\ h = (OsPath.dirname (PyStr.join "/" names),
                effective_filter pickle_load target).
Proof.
  unfold Trie_search.
  pose proof (dfs_search_reads normcase pickle_load (root trie) path 0 [] [])
    as Hreads.
  destruct (_dfs_search normcase pickle_load (root trie) path 0 [] [])
    as [root' results].
  cbn [snd] in *. subst results. cbn [app]. split.
  - intros Hin. apply hits_under_sound in Hin.
    exact Hin.
  - intros (names & target & Hreach & Hnames & Heof & ->).
    apply (hits_under_complete (root trie) target names Hreach Heof path 0%nat []).
    exact Hnames.
Qed.

End SearchProperties.

(** ** More on insertion *)

Lemma dict_set_set {V} (k : string) (v v' : V) (d : dict V) :
  dict_set k v (dict_set k v' d) = dict_set k v d.
Proof.
  induction d as [|[k0 v0] d IH]; cbn [dict_set].
  - now rewrite String.eqb_refl.
  - destruct (String.eqb k k0) eqn:Hk; cbn [dict_set]; rewrite Hk;
      [reflexivity | now rewrite IH].
Qed.

Lemma dict_set_get_id {V} (k : string) (v : V) (d : dict V) :
  dict_get k d = Some v -> dict_set k v d = d.
Proof.
  induction d as [|[k0 v0] d IH]; cbn [dict_get dict_set]; [discriminate|].
  destruct (String.eqb k k0) eqn:Hk.
  - intros H; inversion H; reflexivity.
  - intros H. now rewrite IH.
Qed.

Lemma dict_get_In {V} (k : string) (v : V) (d : dict V) :
  dict_get k d = Some v -> In (k, v) d.
Proof.
  induction d as [|[k0 v0] d IH]; cbn [dict_get]; [discriminate|].
  destruct (String.eqb k k0) eqn:Hk.
  - apply String.eqb_eq in Hk. subst k0. intros H; inversion H. now left.
  - intros H. right. auto.
Qed.

Lemma dfs_count_unfold (node : TrieNode) :
  _dfs_count node
  = S (list_sum (map (fun entry => _dfs_count (snd entry)) (children node))).
Proof.
  destruct node as [cs eof bf fp]. cbn [_dfs_count children]. f_equal.
  induction cs as [|[key child] cs IH]; [reflexivity|].
  change (list_sum (map (fun entry => _dfs_count (snd entry)) ((key, child) :: cs)))
    with (_dfs_count child
          + list_sum (map (fun entry => _dfs_count (snd entry)) cs))%nat.
  now rewrite <- IH.
Qed.

Lemma dfs_count_dict_set (k : string) (c : TrieNode) (d : dict TrieNode) :
  (list_sum (map (fun entry => _dfs_count (snd entry)) (dict_set k c d))
   + match dict_get k d with
     | Some old => _dfs_count old
     | None => 0
     end
   = list_sum (map (fun entry => _dfs_count (snd entry)) d) + _dfs_count c)%nat.
Proof.
  induction d as [|[k0 c0] d IH]; cbn [dict_set dict_get].
  - cbn -[_dfs_count]. lia.
  - unfold list_sum in *.
    destruct (String.eqb k k0); cbn -[_dfs_count] in *; lia.
Qed.

Section InsertProperties.

Variable pickle_load : string -> option FilterData.

Lemma insert_from_without_location (path : list string) (fp : option string) :
  truthy fp = false ->
  forall node, exists terminal,
    node_at (insert_from pickle_load node path fp) path = Some terminal
    /\ end_of_file terminal = true
    /\ match node_at node path with
       | Some old =>
           bloom_filter terminal = bloom_filter old
           /\ file_path terminal = file_path old
       | None => bloom_filter terminal = None /\ file_path terminal = fp
       end.
Proof.
  intros Hfp. induction path as [|part path IH]; intros node.
  - cbn [insert_from node_at]. rewrite Hfp.
    eexists. split; [reflexivity|]. cbn. auto.
  - cbn [insert_from node_at]. cbn [children set_children].
    rewrite dict_get_set_eq.
    destruct (dict_get part (children node)) as [child|] eqn:Hchild.
    + apply IH.
    + destruct (IH (TrieNode_init fp)) as (terminal & Hat & Heof & Hold).
      exists terminal. split; [exact Hat|]. split; [exact Heof|].
      destruct path as [|part' path']; [exact Hold|exact Hold].
Qed.

(** X4.  [insert] without an artifact location (the location is [None]
    or empty) marks the node of the path as end of file and loads
    nothing: a node that was there keeps its filter and its location, a
    node that is created has no filter and the given location. *)
Theorem insert_without_location (trie : Trie) (path : list string)
    (fp : option string) :
  truthy fp = false ->
  exists terminal,
    node_at (root (Trie_insert pickle_load trie path fp)) path = Some terminal
    /\ end_of_file terminal = true
    /\ match node_at (root trie) path with
       | Some old =>
           bloom_filter terminal = bloom_filter old
           /\ file_path terminal = file_path old
       | None => bloom_filter terminal = None /\ file_path terminal = fp
       end.
Proof.
  intros Hfp. unfold Trie_insert. cbn [root].
  apply insert_from_without_location. exact Hfp.
Qed.

(** X5.  [insert] leaves the nodes of all other paths in place, each with
    its end-of-file mark, its filter and its location. *)
Theorem insert_keeps_other_paths (trie : Trie) (path observed : list string)
    (fp : option string) (node : TrieNode) :
  node_at (root trie) observed = Some node ->
  observed <> path ->
  exists node',
    node_at (root (Trie_insert pickle_load trie path fp)) observed = Some node'
    /\ end_of_file node' = end_of_file node
    /\ bloom_filter node' = bloom_filter node
    /\ file_path node' = file_path node.
Proof.
  intros Hat Hne. unfold Trie_insert. cbn [root].
  apply insert_from_preserves; assumption.
Qed.

Lemma insert_from_twice (path : list string) (fp : option string) :
  forall node,
    insert_from pickle_load (insert_from pickle_load node path fp) path fp
    = insert_from pickle_load node path fp.
Proof.
  induction path as [|part path IH]; intros [cs eof bf fp0].
  - cbn [insert_from]. destruct (truthy fp); reflexivity.
  - cbn [insert_from children set_children].
    rewrite dict_get_set_eq. rewrite IH. unfold set_children.
    cbn [children end_of_file bloom_filter file_path].
    now rewrite dict_set_set.
Qed.

(** X6.  Inserting the same path with the same location a second time
    changes nothing. *)
Theorem insert_twice (trie : Trie) (path : list string) (fp : option string) :
  Trie_insert pickle_load (Trie_insert pickle_load trie path fp) path fp
  = Trie_insert pickle_load trie path fp.
Proof. unfold Trie_insert. cbn [root]. now rewrite insert_from_twice. Qed.

Lemma dfs_count_insert_from (path : list string) (fp : option string) :
  forall node,
    (_dfs_count node <= _dfs_count (insert_from pickle_load node path fp)
     <= _dfs_count node + length path)%nat.
Proof.
  induction path as [|part path IH]; intros node.
  - cbn [insert_from length].
    destruct (truthy fp); rewrite !dfs_count_unfold; cbn [children
      set_bloom_filter set_file_path set_end_of_file]; lia.
  - cbn [insert_from length].
    rewrite (dfs_count_unfold (set_children _ _)), (dfs_count_unfold node).
    cbn [children set_children].
    match goal with
    | |- context [dict_set part ?X (children node)] =>
        pose proof (dfs_count_dict_set part X (children node)) as Hsum;
        set (inserted := X) in *
    end.
    destruct (dict_get part (children node)) as [child|] eqn:Hchild.
    + specialize (IH child). fold inserted in IH. lia.
    + specialize (IH (TrieNode_init fp)). fold inserted in IH.
      change (_dfs_count (TrieNode_init fp)) with 1%nat in IH. lia.
Qed.

(** X7.  [insert] never removes a node and adds at most one node per
    segment of the path: the size of the trie grows by at most the length
    of the path. *)
Theorem size_after_insert (trie : Trie) (path : list string) (fp : option string) :
  (Trie_size trie <= Trie_size (Trie_insert pickle_load trie path fp)
   <= Trie_size trie + length path)%nat.
Proof. unfold Trie_size, Trie_insert. cbn [root]. apply dfs_count_insert_from. Qed.

End InsertProperties.

Lemma insert_without_location_witness :
  exists terminal,
    node_at (root (Trie_insert (fun _ => None) Trie_init
                               ["path"; "to"; "file.txt"] None))
            ["path"; "to"; "file.txt"] = Some terminal
    /\ end_of_file terminal = true
    /\ match node_at (root Trie_init) ["path"; "to"; "file.txt"] with
       | Some old =>
           bloom_filter terminal = bloom_filter old
           /\ file_path terminal = file_path old
       | None => bloom_filter terminal = None /\ file_path terminal = None
       end.
Proof.
  apply (insert_without_location (fun _ => None) Trie_init
           ["path"; "to"; "file.txt"] None).
  reflexivity.
Defined.

Lemma insert_keeps_other_paths_witness :
  exists node',
    node_at (root (Trie_insert (disk_load Sample.balance_disk)
                     Sample.balance_trie
                     ["bloom"; "C"; "account_balance.pickle"]
                     (Some "idx/C/account_balance.pickle")))
            ["bloom"; "A"; "account_balance.pickle"] = Some node'
    /\ end_of_file node' = true
    /\ bloom_filter node' = Some (FRange (VInt 0) (VInt 1000))
    /\ file_path node' = Some "idx/A/account_balance.pickle".
Proof.
  apply (insert_keeps_other_paths (disk_load Sample.balance_disk)
           Sample.balance_trie
           ["bloom"; "C"; "account_balance.pickle"]
           ["bloom"; "A"; "account_balance.pickle"]
           (Some "idx/C/account_balance.pickle")
           (mkNode [] true (Some (FRange (VInt 0) (VInt 1000)))
                   (Some "idx/A/account_balance.pickle"))).
  - vm_compute. reflexivity.
  - discriminate.
Defined.

(** ** The discovery loader *)

Lemma join_nonempty (a b : string) : b <> "" -> OsPath.join a b <> "".
Proof.
  intros Hb. unfold OsPath.join.
  destruct (PyStr.startswith b "/"); [exact Hb|].
  destruct (String.eqb a "" || PyStr.endswith a "/")%bool.
  - destruct a as [|c a]; [exact Hb|].
    change (String c a +:+ b) with (String c (a +:+ b)). discriminate.
  - destruct a as [|c a].
    + change ("" +:+ "/" +:+ b) with (String "/"%char b). discriminate.
    + change (String c a +:+ "/" +:+ b) with (String c (a +:+ "/" +:+ b)).
      discriminate.
Qed.

Lemma pickle_name_nonempty (file : string) :
  PyStr.endswith file ".pickle" = true -> file <> "".
Proof. intros H ->. discriminate H. Qed.

Section LoaderProperties.

Variable pickle_load : string -> option FilterData.

Lemma insert_all_app (trie : Trie) (l1 l2 : list (list string * option string)) :
  insert_all pickle_load trie (l1 ++ l2)
  = insert_all pickle_load (insert_all pickle_load trie l1) l2.
Proof. unfold insert_all. apply foldl_app. Qed.

Lemma load_files_insertions (root_directory bloom_source : string)
    (segments files : list string) :
  forall trie,
    load_files pickle_load root_directory bloom_source segments files trie
    = insert_all pickle_load trie
        (file_insertions root_directory bloom_source segments files).
Proof.
  induction files as [|file files IH]; intros trie; [reflexivity|].
  cbn [load_files]. unfold file_insertions. cbn [List.filter].
  destruct (PyStr.endswith file ".pickle"); cbn [negb map].
  - rewrite IH. reflexivity.
  - rewrite IH. reflexivity.
Qed.

Lemma load_bloom_filters_insertions (root_directory bloom_source : string)
    (entries : list walk_entry) :
  forall trie,
    load_bloom_filters pickle_load (Some entries) root_directory bloom_source trie
    = insert_all pickle_load trie
        (walk_insertions root_directory bloom_source entries).
Proof.
  cbn [load_bloom_filters].
  induction entries as [|[segments files] entries IH]; intros trie; [reflexivity|].
  cbn [foldl walk_insertions flat_map].
  rewrite insert_all_app, <- load_files_insertions. apply IH.
Qed.

Lemma walk_insertions_entry (root_directory bloom_source : string)
    (entries : list walk_entry) (entry : list string * option string) :
  In entry (walk_insertions root_directory bloom_source entries)
  <-> exists segments files file,
        In (segments, files) entries /\ In file files
        /\ PyStr.endswith file ".pickle" = true
        /\ entry = ([bloom_source] ++ segments ++ [file],
                    Some (OsPath.join (walk_directory root_directory segments) file)).
Proof.
  unfold walk_insertions. rewrite in_flat_map. split.
  - intros [[segments files] [Hentry Hin]]. unfold file_insertions in Hin.
    apply in_map_iff in Hin. destruct Hin as (file & <- & Hfile).
    apply filter_In in Hfile. destruct Hfile as [Hfile Hpickle].
    exists segments, files, file. auto.
  - intros (segments & files & file & Hentry & Hfile & Hpickle & ->).
    exists (segments, files). split; [exact Hentry|].
    unfold file_insertions. apply in_map_iff. exists file.
    split; [reflexivity|]. apply filter_In. auto.
Qed.

Lemma walk_insertions_coherent (root_directory bloom_source : string)
    (entries : list walk_entry) :
  coherent (walk_insertions root_directory bloom_source entries).
Proof.
  intros path fp Hin. apply walk_insertions_entry in Hin.
  destruct Hin as (segments & files & file & _ & _ & Hpickle & Heq).
  inversion Heq; subst path fp. split.
  - eexists. split; [reflexivity|].
    apply join_nonempty, pickle_name_nonempty, Hpickle.
  - intros fp' Hin'. apply walk_insertions_entry in Hin'.
    destruct Hin' as (segments' & files' & file' & _ & _ & _ & Heq').
    inversion Heq' as [[Hpath Hfp]].
    apply app_inj_tail in Hpath. destruct Hpath as [-> ->]. reflexivity.
Qed.

Lemma insert_registered (trie : Trie) (path : list string) (location : string) :
  location <> "" ->
  registered pickle_load (Trie_insert pickle_load trie path (Some location))
             path location.
Proof.
  intros Hloc. unfold registered, Trie_insert. cbn [root].
  apply node_at_insert_from. exact Hloc.
Qed.

Lemma insert_keeps_registered (trie : Trie) (path path' : list string)
    (location : string) (fp : option string) :
  registered pickle_load trie path location ->
  path' <> path ->
  registered pickle_load (Trie_insert pickle_load trie path' fp) path location.
Proof.
  intros (node & Hat & Heof & Hfp & Hbf) Hne. unfold registered, Trie_insert.
  cbn [root].
  destruct (insert_from_preserves pickle_load path path' fp (root trie) node Hat)
    as (node' & Hat' & Heof' & Hbf' & Hfp'); [congruence|].
  exists node'. repeat split; congruence.
Qed.

Lemma insert_all_keeps_registered (entries : list (list string * option string))
    (path : list string) (location : string) :
  location <> "" ->
  (forall fp, In (path, fp) entries -> fp = Some location) ->
  forall trie,
    registered pickle_load trie path location ->
    registered pickle_load (insert_all pickle_load trie entries) path location.
Proof.
  intros Hloc. induction entries as [|[path' fp'] entries IH];
    intros Hsame trie Hreg; [exact Hreg|].
  cbn [insert_all foldl]. apply IH.
  - intros fp Hin. apply Hsame. now right.
  - destruct (decide (path' = path)) as [->|Hne].
    + rewrite (Hsame fp') by now left. apply insert_registered, Hloc.
    + apply insert_keeps_registered; assumption.
Qed.

Lemma coherent_tail (entry : list string * option string)
    (entries : list (list string * option string)) :
  coherent (entry :: entries) -> coherent entries.
Proof.
  intros Hcoh p f Hpf. destruct (Hcoh p f) as [Hl Hs]; [now right|].
  split; [exact Hl|]. intros f' Hf'. apply Hs. now right.
Qed.

Lemma insert_all_registers (entries : list (list string * option string)) :
  coherent entries ->
  forall trie path location,
    In (path, Some location) entries ->
    registered pickle_load (insert_all pickle_load trie entries) path location.
Proof.
  induction entries as [|[path0 fp0] entries IH]; intros Hcoh trie path location Hin;
    [destruct Hin|].
  cbn [insert_all foldl].
  destruct Hin as [Heq|Hin].
  - inversion Heq; subst path0 fp0.
    destruct (Hcoh path (Some location)) as [(loc & Hloc & Hne) Hsame];
      [now left|].
    inversion Hloc; subst loc.
    apply insert_all_keeps_registered; [exact Hne| |].
    + intros fp Hfp. apply Hsame. now right.
    + apply insert_registered, Hne.
  - apply IH; [eapply coherent_tail, Hcoh | exact Hin].
Qed.

Lemma insert_from_registered (path : list string) (location : string) :
  location <> "" ->
  forall node terminal,
    node_at node path = Some terminal ->
    end_of_file terminal = true ->
    file_path terminal = Some location ->
    bloom_filter terminal = pickle_load location ->
    insert_from pickle_load node path (Some location) = node.
Proof.
  intros Hloc.
  assert (Htruthy : truthy (Some location) = true).
  { cbn [truthy]. destruct (String.eqb location "") eqn:E; [|reflexivity].
    apply String.eqb_eq in E. congruence. }
  induction path as [|part path IH]; intros node terminal Hat Heof Hfp Hbf.
  - cbn [node_at] in Hat. inversion Hat; subst terminal.
    cbn [insert_from]. rewrite Htruthy.
    destruct node as [cs eof bf fp]. cbn in *. subst. reflexivity.
  - cbn [node_at] in Hat. cbn [insert_from].
    destruct (dict_get part (children node)) as [child|] eqn:Hchild;
      [|discriminate].
    rewrite (IH child terminal Hat Heof Hfp Hbf).
    rewrite (dict_set_get_id _ _ _ Hchild).
    destruct node; reflexivity.
Qed.

Lemma insert_all_registered (entries : list (list string * option string))
    (trie : Trie) :
  (forall path fp, In (path, fp) entries ->
     exists location, fp = Some location /\ location <> ""
                      /\ registered pickle_load trie path location) ->
  insert_all pickle_load trie entries = trie.
Proof.
  induction entries as [|[path fp] entries IH]; intros Hreg; [reflexivity|].
  cbn [insert_all foldl].
  destruct (Hreg path fp) as (location & -> & Hloc & node & Hat & Heof & Hfp & Hbf);
    [now left|].
  unfold Trie_insert.
  rewrite (insert_from_registered path location Hloc (root trie) node Hat Heof Hfp Hbf).
  destruct trie as [r]. cbn [root]. apply IH.
  intros path' fp' Hin. apply Hreg. now right.
Qed.

(** X8.  Loading a directory listing a second time changes nothing: the
    trie after the second run of [load_bloom_filters] is the trie after
    the first. *)
Theorem load_bloom_filters_twice (walk : option (list walk_entry))
    (root_directory bloom_source : string) (trie : Trie) :
  load_bloom_filters pickle_load walk root_directory bloom_source
    (load_bloom_filters pickle_load walk root_directory bloom_source trie)
  = load_bloom_filters pickle_load walk root_directory bloom_source trie.
Proof.
  destruct walk as [entries|]; [|reflexivity].
  rewrite !load_bloom_filters_insertions.
  apply insert_all_registered. intros path fp Hin.
  destruct (walk_insertions_coherent root_directory bloom_source entries path fp Hin)
    as [(location & -> & Hloc) _].
  exists location. split; [reflexivity|]. split; [exact Hloc|].
  apply insert_all_registers; [apply walk_insertions_coherent | exact Hin].
Qed.

(** X9.  After [load_bloom_filters] every file of the listing whose name
    ends with [.pickle] is a file end of the trie, at the source followed
    by its directory segments and its name; the node holds the joined
    location of the file and what loading that location gives. *)
Theorem load_bloom_filters_registers (entries : list walk_entry)
    (root_directory bloom_source : string) (trie : Trie)
    (segments files : list string) (file : string) :
  In (segments, files) entries ->
  In file files ->
  PyStr.endswith file ".pickle" = true ->
  exists node,
    node_at (root (load_bloom_filters pickle_load (Some entries)
                     root_directory bloom_source trie))
            ([bloom_source] ++ segments ++ [file]) = Some node
    /\ end_of_file node = true
    /\ file_path node
       = Some (OsPath.join (walk_directory root_directory segments) file)
    /\ bloom_filter node
       = pickle_load (OsPath.join (walk_directory root_directory segments) file).
Proof.
  intros Hentry Hfile Hpickle. rewrite load_bloom_filters_insertions.
  apply (insert_all_registers
           (walk_insertions root_directory bloom_source entries)
           (walk_insertions_coherent root_directory bloom_source entries)).
  apply walk_insertions_entry. exists segments, files, file. auto.
Qed.

(** X10.  [load_bloom_filters] looks at no file with another extension:
    a listing and the same listing without those files give the same
    trie. *)
Theorem load_bloom_filters_skips_other_files (entries : list walk_entry)
    (root_directory bloom_source : string) (trie : Trie) :
  load_bloom_filters pickle_load (Some entries) root_directory bloom_source trie
  = load_bloom_filters pickle_load
      (Some (map (fun '(segments, files) =>
                    (segments,
                     List.filter (fun file => PyStr.endswith file ".pickle") files))
                 entries))
      root_directory bloom_source trie.
Proof.
  rewrite !load_bloom_filters_insertions. f_equal.
  induction entries as [|[segments files] entries IH]; [reflexivity|].
  cbn [walk_insertions flat_map map]. f_equal; [|exact IH].
  unfold file_insertions. f_equal.
  induction files as [|file files IHf]; [reflexivity|].
  cbn [List.filter]. destruct (PyStr.endswith file ".pickle") eqn:Hp.
  - cbn [List.filter]. rewrite Hp. now f_equal.
  - exact IHf.
Qed.

End LoaderProperties.

Lemma load_bloom_filters_registers_witness :
  exists node,
    node_at (root (load_bloom_filters (disk_load Sample.balance_disk)
                     (Some [(["A"], ["account_balance.pickle"; "notes.txt"])])
                     "idx" "bloom" Trie_init))
            (["bloom"] ++ ["A"] ++ ["account_balance.pickle"]) = Some node
    /\ end_of_file node = true
    /\ file_path node
       = Some (OsPath.join (walk_directory "idx" ["A"]) "account_balance.pickle")
    /\ bloom_filter node
       = disk_load Sample.balance_disk
           (OsPath.join (walk_directory "idx" ["A"]) "account_balance.pickle").
Proof.
  apply (load_bloom_filters_registers (disk_load Sample.balance_disk)
           [(["A"], ["account_balance.pickle"; "notes.txt"])]
           "idx" "bloom" Trie_init ["A"]
           ["account_balance.pickle"; "notes.txt"] "account_balance.pickle").
  - left. reflexivity.
  - left. reflexivity.
  - reflexivity.
Defined.

(** ** The evaluator reads the trie *)

Section QueryReading.

Variable normcase : string -> string.
Variable pickle_load : string -> option FilterData.
Variable make_hashes : nat -> string -> list nat.

Lemma answer_of_internal (condition : string) (rule0 : Query)
    (rules : list Query) (source files : string) (trie : Trie) :
  answer_of normcase pickle_load make_hashes
            (Internal condition (rule0 :: rules)) source files trie
  = match answer_of normcase pickle_load make_hashes rule0 source files trie with
    | Ok matching_files =>
        answer_rules
          (fun rule => answer_of normcase pickle_load make_hashes rule source files trie)
          condition rules matching_files
    | Raise e => Raise e
    end.
Proof.
  cbn [answer_of].
  destruct (answer_of normcase pickle_load make_hashes rule0 source files trie)
    as [m|e]; [|reflexivity].
  revert m. induction rules as [|rule rules IH]; intros m; [reflexivity|].
  cbn [answer_rules].
  destruct (answer_of normcase pickle_load make_hashes rule source files trie);
    [apply IH | reflexivity].
Qed.

Lemma answer_rules_ext (a b : Query -> result (gset string)) (condition : string)
    (rules : list Query) :
  Forall (fun rule => a rule = b rule) rules ->
  forall m, answer_rules a condition rules m = answer_rules b condition rules m.
Proof.
  induction 1 as [|rule rules Hrule _ IH]; intros m; [reflexivity|].
  cbn [answer_rules]. rewrite Hrule. destruct (b rule); [apply IH | reflexivity].
Qed.

Lemma answer_of_same_hits (source files : string) (trie trie' : Trie) :
  (forall path, hits_of normcase pickle_load trie' path
                = hits_of normcase pickle_load trie path) ->
  forall query,
    answer_of normcase pickle_load make_hashes query source files trie'
    = answer_of normcase pickle_load make_hashes query source files trie.
Proof.
  intros Hsame.
  induction query as [column value|condition rules IH] using Query_nested_ind.
  - cbn [answer_of]. now rewrite Hsame.
  - destruct rules as [|rule0 rules]; [reflexivity|].
    rewrite !answer_of_internal.
    apply Forall_cons in IH. destruct IH as [Hrule0 Hrules].
    rewrite Hrule0.
    destruct (answer_of normcase pickle_load make_hashes rule0 source files trie);
      [|reflexivity].
    apply answer_rules_ext. exact Hrules.
Qed.

Lemma eval_rules_reads (source files : string) (trie : Trie) (condition : string)
    (rules : list Query) :
  Forall (fun query => forall t,
            (execute_query_v2 normcase pickle_load make_hashes query source files t).2
            = answer_of normcase pickle_load make_hashes query source files t
            /\ forall path,
                 hits_of normcase pickle_load
                   (execute_query_v2 normcase pickle_load make_hashes
                                     query source files t).1 path
                 = hits_of normcase pickle_load t path) rules ->
  forall t m,
    (forall path, hits_of normcase pickle_load t path
                  = hits_of normcase pickle_load trie path) ->
    (eval_rules (fun rule => execute_query_v2 normcase pickle_load make_hashes
                               rule source files)
                condition rules t m).2
    = answer_rules
        (fun rule => answer_of normcase pickle_load make_hashes rule source files trie)
        condition rules m
    /\ forall path,
         hits_of normcase pickle_load
           (eval_rules (fun rule => execute_query_v2 normcase pickle_load make_hashes
                                      rule source files)
                       condition rules t m).1 path
         = hits_of normcase pickle_load trie path.
Proof.
  induction 1 as [|rule rules Hrule _ IH]; intros t m Hsame.
  - cbn [eval_rules answer_rules fst snd]. auto.
  - cbn [eval_rules answer_rules].
    destruct (Hrule t) as [Hres Hkeep].
    rewrite <- (answer_of_same_hits source files trie t Hsame rule), <- Hres.
    destruct (execute_query_v2 normcase pickle_load make_hashes rule source files t)
      as [t' [s|e]]; cbn [fst snd] in *.
    + apply IH. intros path. now rewrite Hkeep.
    + split; [reflexivity|]. intros path. now rewrite Hkeep.
Qed.

Lemma query_reads (source files : string) (query : Query) :
  forall trie,
    (execute_query_v2 normcase pickle_load make_hashes query source files trie).2
    = answer_of normcase pickle_load make_hashes query source files trie
    /\ forall path,
         hits_of normcase pickle_load
           (execute_query_v2 normcase pickle_load make_hashes
                             query source files trie).1 path
         = hits_of normcase pickle_load trie path.
Proof.
  induction query as [column value|condition rules IH] using Query_nested_ind;
    intros trie.
  - cbn [execute_query_v2 answer_of]. unfold Trie_search, hits_of.
    pose proof (dfs_search_reads normcase pickle_load (root trie)
                  (leaf_pattern source files column) 0 [] []) as Hreads.
    pose proof (dfs_search_keeps_hits normcase pickle_load (root trie)
                  (leaf_pattern source files column) 0 [] []) as Hkeeps.
    destruct (_dfs_search normcase pickle_load (root trie)
                (leaf_pattern source files column) 0 [] []) as [root' results].
    cbn [fst snd root] in *. rewrite Hreads. split; [reflexivity|].
    intros path. apply Hkeeps.
  - destruct rules as [|rule0 rules]; [cbn; auto|].
    rewrite answer_of_internal. cbn [execute_query_v2].
    apply Forall_cons in IH. destruct IH as [Hrule0 Hrules].
    destruct (Hrule0 trie) as [Hres Hkeep]. rewrite <- Hres.
    destruct (execute_query_v2 normcase pickle_load make_hashes rule0
                               source files trie) as [trie0 [m|e]];
      cbn [fst snd] in *.
    + apply eval_rules_reads; assumption.
    + split; [reflexivity | exact Hkeep].
Qed.

(** X11.  The result of a query does not depend on the queries that were
    evaluated on the trie before it: the filters an evaluation loads on
    the way change no later result, whatever the later query, source and
    file pattern. *)
Theorem query_result_ignores_earlier_queries (earlier later : Query)
    (source files source' files' : string) (trie : Trie) :
  (execute_query_v2 normcase pickle_load make_hashes later source' files'
     (execute_query_v2 normcase pickle_load make_hashes earlier source files trie).1).2
  = (execute_query_v2 normcase pickle_load make_hashes later source' files' trie).2.
Proof.
  destruct (query_reads source' files' later
              (execute_query_v2 normcase pickle_load make_hashes
                                earlier source files trie).1) as [-> _].
  destruct (query_reads source' files' later trie) as [-> _].
  apply answer_of_same_hits.
  apply (query_reads source files earlier trie).
Qed.

End QueryReading.

(** ** What the conditions compute *)

Section RuleLoop.

Variable answer : Query -> result (gset string).

Lemma answer_rules_all_ok (condition : string) (rules : list Query) :
  forall m s,
    answer_rules answer condition rules m = Ok s ->
    Forall (fun rule => exists s', answer rule = Ok s') rules.
Proof.
  induction rules as [|rule rules IH]; intros m s Hrun; [constructor|].
  cbn [answer_rules] in Hrun. destruct (answer rule) as [s'|e] eqn:Hrule;
    [|discriminate].
  constructor; [eauto | eapply IH, Hrun].
Qed.

Lemma answer_rules_ok (condition : string) (rules : list Query) :
  Forall (fun rule => exists s', answer rule = Ok s') rules ->
  forall m, exists s, answer_rules answer condition rules m = Ok s.
Proof.
  induction 1 as [|rule rules [s' Hrule] _ IH]; intros m; [eexists; reflexivity|].
  cbn [answer_rules]. rewrite Hrule. apply IH.
Qed.

Lemma answer_rules_and (rules : list Query) :
  forall m s,
    answer_rules answer "AND" rules m = Ok s ->
    forall x, x ∈ s
              <-> x ∈ m /\ forall rule, In rule rules ->
                             exists s', answer rule = Ok s' /\ x ∈ s'.
Proof.
  induction rules as [|rule rules IH]; intros m s Hrun x; cbn [answer_rules] in Hrun.
  - inversion Hrun; subst s. split; [intros Hx; split; [exact Hx|intros r []]|tauto].
  - destruct (answer rule) as [s'|e] eqn:Hrule; [|discriminate].
    rewrite (IH _ _ Hrun x). change (combine "AND" m s') with (m ∩ s').
    rewrite elem_of_intersection. split.
    + intros [[Hm Hs'] Hrest]. split; [exact Hm|].
      intros r [<-|Hr]; [eauto | auto].
    + intros [Hm Hall]. split.
      * split; [exact Hm|]. destruct (Hall rule) as (s'' & Hs'' & Hx);
          [now left|]. congruence.
      * intros r Hr. apply Hall. now right.
Qed.

Lemma answer_rules_or (rules : list Query) :
  forall m s,
    answer_rules answer "OR" rules m = Ok s ->
    forall x, x ∈ s
              <-> x ∈ m \/ exists rule, In rule rules
                             /\ exists s', answer rule = Ok s' /\ x ∈ s'.
Proof.
  induction rules as [|rule rules IH]; intros m s Hrun x; cbn [answer_rules] in Hrun.
  - inversion Hrun; subst s. split; [tauto|]. intros [Hx|(r & [] & _)]. exact Hx.
  - destruct (answer rule) as [s'|e] eqn:Hrule; [|discriminate].
    rewrite (IH _ _ Hrun x). change (combine "OR" m s') with (m ∪ s').
    rewrite elem_of_union. split.
    + intros [[Hm|Hs']|(r & Hr & Hrest)].
      * now left.
      * right. exists rule. split; [now left|eauto].
      * right. exists r. split; [now right|exact Hrest].
    + intros [Hm|(r & [<-|Hr] & s'' & Hs'' & Hx)].
      * left. now left.
      * left. right. congruence.
      * right. exists r. eauto.
Qed.

Lemma first_and_rest (rule0 : Query) (rules : list Query) (m s : gset string)
    (x : string) :
  answer rule0 = Ok m ->
  answer_rules answer "AND" rules m = Ok s ->
  x ∈ s
  <-> forall rule, In rule (rule0 :: rules) ->
        exists s', answer rule = Ok s' /\ x ∈ s'.
Proof.
  intros Hrule0 Hrun. rewrite (answer_rules_and _ _ _ Hrun x). split.
  - intros [Hm Hall] rule [<-|Hin]; [eauto | auto].
  - intros Hall. split.
    + destruct (Hall rule0) as (s' & Hs' & Hx); [now left|]. congruence.
    + intros rule Hin. apply Hall. now right.
Qed.

Lemma first_or_rest (rule0 : Query) (rules : list Query) (m s : gset string)
    (x : string) :
  answer rule0 = Ok m ->
  answer_rules answer "OR" rules m = Ok s ->
  x ∈ s
  <-> exists rule, In rule (rule0 :: rules)
        /\ exists s', answer rule = Ok s' /\ x ∈ s'.
Proof.
  intros Hrule0 Hrun. rewrite (answer_rules_or _ _ _ Hrun x). split.
  - intros [Hm|(rule & Hin & Hrest)].
    + exists rule0. split; [now left|eauto].
    + exists rule. split; [now right|exact Hrest].
  - intros (rule & [<-|Hin] & s' & Hs' & Hx).
    + left. congruence.
    + right. exists rule. eauto.
Qed.

Lemma answer_rules_other (condition : string) (rules : list Query) :
  condition <> "AND" -> condition <> "OR" ->
  forall m s, answer_rules answer condition rules m = Ok s -> s = m.
Proof.
  intros Hand Hor.
  assert (Hcombine : forall m s', combine condition m s' = m).
  { intros m s'. unfold combine.
    destruct (String.eqb condition "AND") eqn:E1;
      [apply String.eqb_eq in E1; contradiction|].
    destruct (String.eqb condition "OR") eqn:E2;
      [apply String.eqb_eq in E2; contradiction|].
    reflexivity. }
  induction rules as [|rule rules IH]; intros m s Hrun; cbn [answer_rules] in Hrun.
  - congruence.
  - destruct (answer rule) as [s'|e]; [|discriminate].
    rewrite Hcombine in Hrun. apply IH, Hrun.
Qed.

End RuleLoop.

Section Conditions.

Variable normcase : string -> string.
Variable pickle_load : string -> option FilterData.
Variable make_hashes : nat -> string -> list nat.
Variables source files : string.

Lemma internal_result (condition : string) (rule0 : Query) (rules : list Query)
    (trie : Trie) :
  (execute_query_v2 normcase pickle_load make_hashes
     (Internal condition (rule0 :: rules)) source files trie).2
  = match (execute_query_v2 normcase pickle_load make_hashes
             rule0 source files trie).2 with
    | Ok m =>
        answer_rules
          (fun rule => (execute_query_v2 normcase pickle_load make_hashes
                          rule source files trie).2)
          condition rules m
    | Raise e => Raise e
    end.
Proof.
  destruct (query_reads normcase pickle_load make_hashes source files
              (Internal condition (rule0 :: rules)) trie) as [-> _].
  destruct (query_reads normcase pickle_load make_hashes source files
              rule0 trie) as [-> _].
  rewrite answer_of_internal.
  destruct (answer_of normcase pickle_load make_hashes rule0 source files trie);
    [|reflexivity].
  apply answer_rules_ext. apply Forall_forall. intros rule _.
  symmetry. apply query_reads.
Qed.

(** X12.  When an ['AND'] node with at least one rule evaluates to a set,
    that set is the intersection of the sets of its rules, each rule
    evaluated by itself on the trie. *)
Theorem and_is_intersection (rules : list Query) (trie : Trie)
    (s : gset string) (x : string) :
  rules <> [] ->
  (execute_query_v2 normcase pickle_load make_hashes
     (Internal "AND" rules) source files trie).2 = Ok s ->
  x ∈ s
  <-> forall rule, In rule rules ->
        exists s', (execute_query_v2 normcase pickle_load make_hashes
                      rule source files trie).2 = Ok s'
                   /\ x ∈ s'.
Proof.
  intros Hne Hrun. destruct rules as [|rule0 rules]; [congruence|].
  rewrite internal_result in Hrun.
  destruct (execute_query_v2 normcase pickle_load make_hashes
              rule0 source files trie).2 as [m|e] eqn:Hrule0; [|discriminate].
  exact (first_and_rest _ rule0 rules m s x Hrule0 Hrun).
Qed.

(** X13.  When an ['OR'] node evaluates to a set, that set is the union
    of the sets of its rules, each rule evaluated by itself on the trie;
    an ['OR'] node without rules gives the empty set. *)
Theorem or_is_union (rules : list Query) (trie : Trie)
    (s : gset string) (x : string) :
  (execute_query_v2 normcase pickle_load make_hashes
     (Internal "OR" rules) source files trie).2 = Ok s ->
  x ∈ s
  <-> exists rule, In rule rules
        /\ exists s', (execute_query_v2 normcase pickle_load make_hashes
                         rule source files trie).2 = Ok s'
                      /\ x ∈ s'.
Proof.
  intros Hrun. destruct rules as [|rule0 rules].
  - cbn in Hrun. inversion Hrun; subst s. split.
    + intros Hx. now apply not_elem_of_empty in Hx.
    + intros (rule & [] & _).
  - rewrite internal_result in Hrun.
    destruct (execute_query_v2 normcase pickle_load make_hashes
                rule0 source files trie).2 as [m|e] eqn:Hrule0; [|discriminate].
    exact (first_or_rest _ rule0 rules m s x Hrule0 Hrun).
Qed.

(** X14.  Under a condition that is neither ['AND'] nor ['OR'] (the test
    is on the exact string) the rules after the first are evaluated and
    their sets dropped: when the node evaluates to a set, it is the set of
    its first rule. *)
Theorem other_condition_gives_first_rule (condition : string) (rule0 : Query)
    (rules : list Query) (trie : Trie) (s : gset string) :
  condition <> "AND" -> condition <> "OR" ->
  (execute_query_v2 normcase pickle_load make_hashes
     (Internal condition (rule0 :: rules)) source files trie).2 = Ok s ->
  (execute_query_v2 normcase pickle_load make_hashes
     rule0 source files trie).2 = Ok s.
Proof.
  intros Hand Hor Hrun. rewrite internal_result in Hrun.
  destruct (execute_query_v2 normcase pickle_load make_hashes
              rule0 source files trie).2 as [m|e]; [|discriminate].
  now rewrite (answer_rules_other _ condition rules Hand Hor m s Hrun).
Qed.

Lemma internal_ok_iff (condition : string) (rules : list Query) (trie : Trie) :
  (exists s, (execute_query_v2 normcase pickle_load make_hashes
                (Internal condition rules) source files trie).2 = Ok s)
  <-> Forall (fun rule =>
                exists s', (execute_query_v2 normcase pickle_load make_hashes
                              rule source files trie).2 = Ok s') rules.
Proof.
  destruct rules as [|rule0 rules].
  - split; [constructor | intros _; eexists; reflexivity].
  - rewrite internal_result. split.
    + intros [s Hrun].
      destruct (execute_query_v2 normcase pickle_load make_hashes
                  rule0 source files trie).2 as [m|e] eqn:Hrule0; [|discriminate].
      constructor; [eauto|]. exact (answer_rules_all_ok _ _ _ _ _ Hrun).
    + intros Hall. apply Forall_cons in Hall. destruct Hall as [[m ->] Hrules].
      apply answer_rules_ok. exact Hrules.
Qed.

(** X15.  The order of the rules of an ['AND'] or ['OR'] node is
    irrelevant: when the node evaluates to a set, the node with its rules
    in any other order evaluates to the same set. *)
Theorem rule_order_is_irrelevant (condition : string) (rules rules' : list Query)
    (trie : Trie) (s : gset string) :
  condition = "AND" \/ condition = "OR" ->
  Permutation rules rules' ->
  (execute_query_v2 normcase pickle_load make_hashes
     (Internal condition rules) source files trie).2 = Ok s ->
  (execute_query_v2 normcase pickle_load make_hashes
     (Internal condition rules') source files trie).2 = Ok s.
Proof.
  intros Hcond Hperm Hrun.
  assert (Hok : exists s', (execute_query_v2 normcase pickle_load make_hashes
                              (Internal condition rules') source files trie).2
                           = Ok s').
  { apply (proj2 (internal_ok_iff condition rules' trie)). rewrite <- Hperm.
    apply (proj1 (internal_ok_iff condition rules trie)). eauto. }
  destruct Hok as [s' Hrun']. rewrite Hrun'. f_equal.
  assert (Hin : forall rule, In rule rules <-> In rule rules').
  { intros rule. split; apply Permutation_in; [exact Hperm | now symmetry]. }
  destruct rules as [|rule0 rules].
  { apply Permutation_nil in Hperm. subst rules'. congruence. }
  destruct rules' as [|rule0' rules'].
  { symmetry in Hperm. apply Permutation_nil in Hperm. discriminate. }
  rewrite internal_result in Hrun, Hrun'.
  destruct (execute_query_v2 normcase pickle_load make_hashes
              rule0 source files trie).2 as [m|e] eqn:Hrule0; [|discriminate].
  destruct (execute_query_v2 normcase pickle_load make_hashes
              rule0' source files trie).2 as [m'|e'] eqn:Hrule0'; [|discriminate].
  apply set_eq. intros x.
  destruct Hcond as [-> | ->].
  - rewrite (first_and_rest _ rule0' rules' m' s' x Hrule0' Hrun').
    rewrite (first_and_rest _ rule0 rules m s x Hrule0 Hrun).
    split; intros Hall rule Hr; apply Hall, Hin, Hr.
  - rewrite (first_or_rest _ rule0' rules' m' s' x Hrule0' Hrun').
    rewrite (first_or_rest _ rule0 rules m s x Hrule0 Hrun).
    split; intros (rule & Hr & Hrest); exists rule;
      (split; [apply Hin, Hr | exact Hrest]).
Qed.

End Conditions.

Lemma and_is_intersection_witness :
  "b/l/o/o/m" ∈ ({[ "b/l/o/o/m" ]} : gset string)
  <-> forall rule,
        In rule [Leaf "account_balance" (VInt 700);
                 Leaf "account_balance" (VInt 3000)] ->
        exists s', (execute_query_v2 Sample.posix (disk_load Sample.balance_disk)
                      Sample.no_hashes rule "bloom" "*" Sample.balance_trie).2
                   = Ok s'
                   /\ "b/l/o/o/m" ∈ s'.
Proof.
  apply (and_is_intersection Sample.posix (disk_load Sample.balance_disk)
           Sample.no_hashes "bloom" "*"
           [Leaf "account_balance" (VInt 700); Leaf "account_balance" (VInt 3000)]
           Sample.balance_trie {[ "b/l/o/o/m" ]} "b/l/o/o/m").
  - discriminate.
  - vm_compute. reflexivity.
Defined.

Lemma or_is_union_witness :
  "b/l/o/o/m" ∈ ({[ "b/l/o/o/m" ]} : gset string)
  <-> exists rule,
        In rule [Leaf "account_balance" (VInt 9000);
                 Leaf "account_balance" (VInt 3000)]
        /\ exists s', (execute_query_v2 Sample.posix (disk_load Sample.balance_disk)
                         Sample.no_hashes rule "bloom" "*" Sample.balance_trie).2
                      = Ok s'
                      /\ "b/l/o/o/m" ∈ s'.
Proof.
  apply (or_is_union Sample.posix (disk_load Sample.balance_disk)
           Sample.no_hashes "bloom" "*"
           [Leaf "account_balance" (VInt 9000); Leaf "account_balance" (VInt 3000)]
           Sample.balance_trie {[ "b/l/o/o/m" ]} "b/l/o/o/m").
  vm_compute. reflexivity.
Defined.

Lemma other_condition_gives_first_rule_witness :
  (execute_query_v2 Sample.posix (disk_load Sample.balance_disk) Sample.no_hashes
     (Leaf "account_balance" (VInt 700)) "bloom" "*" Sample.balance_trie).2
  = Ok {[ "b/l/o/o/m" ]}.
Proof.
  apply (other_condition_gives_first_rule Sample.posix
           (disk_load Sample.balance_disk) Sample.no_hashes "bloom" "*"
           "and" (Leaf "account_balance" (VInt 700))
           [Leaf "account_balance" (VInt 9000)]
           Sample.balance_trie {[ "b/l/o/o/m" ]}).
  - discriminate.
  - discriminate.
  - vm_compute. reflexivity.
Defined.

Lemma rule_order_is_irrelevant_witness :
  (execute_query_v2 Sample.posix (disk_load Sample.balance_disk) Sample.no_hashes
     (Internal "AND" [Leaf "account_balance" (VInt 9000);
                      Leaf "account_balance" (VInt 700)])
     "bloom" "*" Sample.balance_trie).2
  = Ok ∅.
Proof.
  apply (rule_order_is_irrelevant Sample.posix
           (disk_load Sample.balance_disk) Sample.no_hashes "bloom" "*" "AND"
           [Leaf "account_balance" (VInt 700); Leaf "account_balance" (VInt 9000)]
           [Leaf "account_balance" (VInt 9000); Leaf "account_balance" (VInt 700)]
           Sample.balance_trie ∅).
  - left. reflexivity.
  - apply perm_swap.
  - vm_compute. reflexivity.
Defined.

Section EmptyTrie.

Variable normcase : string -> string.
Variable pickle_load : string -> option FilterData.
Variable make_hashes : nat -> string -> list nat.
Variables source files : string.

Lemma eval_rules_on_empty (condition : string) (rules : list Query) :
  Forall (fun query =>
            execute_query_v2 normcase pickle_load make_hashes query
                             source files Trie_init
            = (Trie_init, Ok ∅)) rules ->
  eval_rules (fun rule => execute_query_v2 normcase pickle_load make_hashes
                            rule source files)
             condition rules Trie_init ∅
  = (Trie_init, Ok ∅).
Proof.
  induction 1 as [|rule rules Hrule _ IH]; [reflexivity|].
  cbn [eval_rules]. rewrite Hrule.
  replace (combine condition ∅ ∅) with (∅ : gset string); [exact IH|].
  unfold combine.
  destruct (String.eqb condition "AND"); [|destruct (String.eqb condition "OR")];
    symmetry; apply leibniz_equiv; set_solver.
Qed.

(** X16.  On a trie in which nothing was inserted every query, whatever
    its shape, its condition, its source and its file pattern, evaluates
    to the empty set without an exception, and the trie stays empty. *)
Theorem query_on_empty_trie (query : Query) :
  execute_query_v2 normcase pickle_load make_hashes query source files Trie_init
  = (Trie_init, Ok ∅).
Proof.
  induction query as [column value|condition rules IH] using Query_nested_ind.
  - reflexivity.
  - destruct rules as [|rule0 rules]; [reflexivity|].
    apply Forall_cons in IH. destruct IH as [Hrule0 Hrules].
    cbn [execute_query_v2]. rewrite Hrule0.
    apply eval_rules_on_empty. exact Hrules.
Qed.

End EmptyTrie.

(** ** What [index_file] writes *)

Lemma series_min_in (cells : list Z) : cells <> [] -> In (series_min cells) cells.
Proof.
  intros Hne. unfold series_min.
  assert (Hany : forall d, In (foldr Z.min d cells) (d :: cells)).
  { induction cells as [|c cells' IH]; intros d; [now left|].
    cbn [foldr]. destruct (Z.min_spec c (foldr Z.min d cells')) as [[_ ->]|[_ ->]].
    - right. now left.
    - destruct cells' as [|c' cells''].
      + now left.
      + destruct (IH ltac:(discriminate) d) as [<-|Hin]; [now left|].
        right. now right. }
  destruct cells as [|c cells']; [congruence|]. cbn [hd].
  destruct (Hany c) as [Heq|Hin]; [rewrite <- Heq; now left | exact Hin].
Qed.

Lemma series_max_in (cells : list Z) : cells <> [] -> In (series_max cells) cells.
Proof.
  intros Hne. unfold series_max.
  assert (Hany : forall d, In (foldr Z.max d cells) (d :: cells)).
  { induction cells as [|c cells' IH]; intros d; [now left|].
    cbn [foldr]. destruct (Z.max_spec c (foldr Z.max d cells')) as [[_ ->]|[_ ->]].
    - destruct cells' as [|c' cells''].
      + now left.
      + destruct (IH ltac:(discriminate) d) as [<-|Hin]; [now left|].
        right. now right.
    - right. now left. }
  destruct cells as [|c cells']; [congruence|]. cbn [hd].
  destruct (Hany c) as [Heq|Hin]; [rewrite <- Heq; now left | exact Hin].
Qed.

Lemma path_written_dec (df : DataFrame) (bloom_path p : string) :
  (exists column s, In (column, s) df /\ filter_file_path bloom_path column = p)
  \/ (forall column s, In (column, s) df -> filter_file_path bloom_path column <> p).
Proof.
  induction df as [|[column0 s0] df IH].
  - right. intros column s [].
  - destruct (decide (filter_file_path bloom_path column0 = p)) as [Hp|Hp].
    + left. exists column0, s0. split; [now left|exact Hp].
    + destruct IH as [(column & s & Hin & Hpath)|Hnone].
      * left. exists column, s. split; [now right|exact Hpath].
      * right. intros column s [Heq|Hin]; [congruence | eauto].
Qed.

Section IndexerProperties.

Variable make_hashes : nat -> string -> list nat.
Variable range_filter_threshold : nat.

Lemma column_filter_total (s : Series) :
  series_items s <> [] ->
  exists fd, column_filter make_hashes range_filter_threshold s = Ok fd.
Proof.
  intros Hne.
  destruct (range_dtype s && Nat.ltb range_filter_threshold (nunique s))%bool
    eqn:Hsel.
  - unfold column_filter. rewrite Hsel.
    destruct (series_bounds s) as [lo hi]. eauto.
  - destruct (column_filter_bloom make_hashes range_filter_threshold s Hsel Hne)
      as (bloom & Hbloom & _). eauto.
Qed.


Lemma index_file_keeps (df : DataFrame) (bloom_path : string) (p : string)
    (fd : FilterData) :
  (forall column s, In (column, s) df ->
     filter_file_path bloom_path column = p ->
     column_filter make_hashes range_filter_threshold s = Ok fd) ->
  forall disk disk' r,
    index_file make_hashes range_filter_threshold df bloom_path disk = (disk', r) ->
    disk !! p = Some fd ->
    disk' !! p = Some fd.
Proof.
  induction df as [|[column s] df IH]; intros Hsame disk disk' r Hrun Hat;
    cbn [index_file] in Hrun.
  - inversion Hrun; subst. exact Hat.
  - destruct (column_filter make_hashes range_filter_threshold s) as [fd1|e]
      eqn:Hfd1.
    + eapply IH; [|exact Hrun|].
      * intros column' s' Hin. apply Hsame. now right.
      * destruct (decide (filter_file_path bloom_path column = p)) as [Hp|Hp].
        -- rewrite (Hsame column s (or_introl eq_refl) Hp) in Hfd1.
           inversion Hfd1; subst fd1. rewrite <- Hp. apply lookup_insert_eq.
        -- rewrite lookup_insert_ne by exact Hp. exact Hat.
    + inversion Hrun; subst. exact Hat.
Qed.

Lemma index_file_frame (df : DataFrame) (bloom_path : string) (p : string) :
  (forall column s, In (column, s) df -> filter_file_path bloom_path column <> p) ->
  forall disk disk' r,
    index_file make_hashes range_filter_threshold df bloom_path disk = (disk', r) ->
    disk' !! p = disk !! p.
Proof.
  induction df as [|[column s] df IH]; intros Hother disk disk' r Hrun;
    cbn [index_file] in Hrun.
  - inversion Hrun; subst. reflexivity.
  - destruct (column_filter make_hashes range_filter_threshold s) as [fd1|e].
    + rewrite (IH (fun c s' Hin => Hother c s' (or_intror Hin)) _ _ _ Hrun).
      apply lookup_insert_ne. apply (Hother column s). now left.
    + inversion Hrun; subst. reflexivity.
Qed.

Lemma index_file_written (df : DataFrame) (bloom_path : string)
    (column : string) (s : Series) :
  In (column, s) df ->
  (forall column' s', In (column', s') df ->
     filter_file_path bloom_path column' = filter_file_path bloom_path column ->
     s' = s) ->
  forall disk disk',
    index_file make_hashes range_filter_threshold df bloom_path disk
    = (disk', Ok tt) ->
    exists fd,
      column_filter make_hashes range_filter_threshold s = Ok fd
      /\ disk' !! filter_file_path bloom_path column = Some fd.
Proof.
  induction df as [|[column0 s0] df IH]; intros Hin Hsame disk disk' Hrun;
    [destruct Hin|].
  cbn [index_file] in Hrun.
  destruct (column_filter make_hashes range_filter_threshold s0) as [fd0|e]
    eqn:Hfd0; [|discriminate].
  destruct Hin as [Heq|Hin].
  - inversion Heq; subst column0 s0. exists fd0. split; [exact Hfd0|].
    eapply index_file_keeps; [|exact Hrun|apply lookup_insert_eq].
    intros column' s' Hin' Hpath.
    rewrite (Hsame column' s' (or_intror Hin') Hpath). exact Hfd0.
  - eapply IH; [exact Hin| |exact Hrun].
    intros column' s' Hin'. apply Hsame. now right.
Qed.

(** X17.  No false negative in the files [index_file] writes.  When
    [index_file] returns, the file of a column holds a filter that accepts
    every value of the column, provided no column with other cells is
    written to the same file (the file name is the lower-cased column
    name, so two columns that differ by case share one file). *)
Theorem index_file_no_false_negative (df : DataFrame) (bloom_path : string)
    (disk disk' : Disk) (column : string) (s : Series) (v : scalar) :
  index_file make_hashes range_filter_threshold df bloom_path disk
  = (disk', Ok tt) ->
  In (column, s) df ->
  (forall column' s', In (column', s') df ->
     filter_file_path bloom_path column' = filter_file_path bloom_path column ->
     s' = s) ->
  In v (series_items s) ->
  exists fd,
    disk' !! filter_file_path bloom_path column = Some fd
    /\ filter_accepts make_hashes fd v = Ok true.
Proof.
  intros Hrun Hin Hsame Hv.
  destruct (index_file_written df bloom_path column s Hin Hsame disk disk' Hrun)
    as (fd & Hfd & Hat).
  exists fd. split; [exact Hat|].
  exact (column_filter_no_false_negative make_hashes range_filter_threshold
           s fd v Hfd Hv).
Qed.

(** X18.  On a frame in which every column has at least one row
    [index_file] raises nothing; afterwards every column has its file,
    and every other file of the disk is as it was. *)
Theorem index_file_writes_column_files (df : DataFrame) (bloom_path : string)
    (disk : Disk) :
  Forall (fun entry => series_items (snd entry) <> []) df ->
  exists disk',
    index_file make_hashes range_filter_threshold df bloom_path disk
    = (disk', Ok tt)
    /\ (forall column s, In (column, s) df ->
          is_Some (disk' !! filter_file_path bloom_path column))
    /\ (forall p,
          (forall column s, In (column, s) df ->
             filter_file_path bloom_path column <> p) ->
          disk' !! p = disk !! p).
Proof.
  intros Hrows.
  assert (Hrun : exists disk',
             index_file make_hashes range_filter_threshold df bloom_path disk
             = (disk', Ok tt)).
  { revert disk. induction Hrows as [|[column s] df Hs _ IH]; intros disk.
    - eexists. reflexivity.
    - cbn [index_file]. cbn [snd] in Hs.
      destruct (column_filter_total s Hs) as [fd ->]. apply IH. }
  destruct Hrun as [disk' Hrun]. exists disk'. split; [exact Hrun|]. split.
  - clear Hrows. revert disk Hrun.
    induction df as [|[column0 s0] df IH]; intros disk Hrun column s Hin;
      [destruct Hin|].
    cbn [index_file] in Hrun.
    destruct (column_filter make_hashes range_filter_threshold s0) as [fd0|e]
      eqn:Hfd0; [|discriminate].
    destruct (path_written_dec df bloom_path (filter_file_path bloom_path column))
      as [(c' & s' & Hin' & Hp)|Hnone].
    + rewrite <- Hp. eapply IH; [exact Hrun|exact Hin'].
    + rewrite (index_file_frame df bloom_path _ Hnone _ _ _ Hrun).
      destruct Hin as [Heq|Hin].
      * inversion Heq; subst. rewrite lookup_insert_eq. eauto.
      * exfalso. exact (Hnone column s Hin eq_refl).
  - intros p Hother. exact (index_file_frame df bloom_path p Hother _ _ _ Hrun).
Qed.

End IndexerProperties.

Section IndexerEdges.

Variable make_hashes : nat -> string -> list nat.
Variable range_filter_threshold : nat.


(** X20.  A range filter is tight: when [index_file] chooses a range for
    a column, the column has more distinct values than the threshold and
    both bounds are values of the column. *)
Theorem range_bounds_are_values (s : Series) (min_value max_value : scalar) :
  column_filter make_hashes range_filter_threshold s
  = Ok (FRange min_value max_value) ->
  (range_filter_threshold < nunique s)%nat
  /\ In min_value (series_items s)
  /\ In max_value (series_items s).
Proof.
  unfold column_filter.
  destruct (range_dtype s && Nat.ltb range_filter_threshold (nunique s))%bool
    eqn:Hsel.
  - apply andb_true_iff in Hsel. destruct Hsel as [Hdtype Hmany].
    apply Nat.ltb_lt in Hmany.
    destruct s as [cells|cells]; [|discriminate Hdtype].
    cbn [series_bounds]. intros Hfd. inversion Hfd; subst. clear Hfd.
    assert (Hne : cells <> []).
    { intros ->. cbn in Hmany. lia. }
    split; [exact Hmany|]. cbn [series_items].
    split; apply in_map; [apply series_min_in | apply series_max_in]; exact Hne.
  - unfold result_bind.
    destruct (bloom_new (length (series_items s))) as [bloom|e]; [|discriminate].
    destruct (bloom_add_all make_hashes bloom (map py_str (series_items s)));
      discriminate.
Qed.

End IndexerEdges.

Lemma index_file_no_false_negative_witness :
  exists fd,
    ({[ "idx/A/account_balance.pickle" := FRange (VInt 0) (VInt 1000) ]} : Disk)
      !! filter_file_path "idx/A" "Account_Balance" = Some fd
    /\ filter_accepts Sample.no_hashes fd (VInt 500) = Ok true.
Proof.
  apply (index_file_no_false_negative Sample.no_hashes 2
           [("Account_Balance", IntSeries [0; 500; 1000])] "idx/A" ∅
           {[ "idx/A/account_balance.pickle" := FRange (VInt 0) (VInt 1000) ]}
           "Account_Balance" (IntSeries [0; 500; 1000]) (VInt 500)).
  - vm_compute. reflexivity.
  - left. reflexivity.
  - intros column' s' [Heq|[]] _. inversion Heq. reflexivity.
  - right. left. reflexivity.
Defined.

Lemma index_file_writes_column_files_witness :
  exists disk',
    index_file Sample.no_hashes 1000 Sample.typed_frame "idx/APAC_AUS_0" ∅
    = (disk', Ok tt)
    /\ (forall column s, In (column, s) Sample.typed_frame ->
          is_Some (disk' !! filter_file_path "idx/APAC_AUS_0" column))
    /\ (forall p,
          (forall column s, In (column, s) Sample.typed_frame ->
             filter_file_path "idx/APAC_AUS_0" column <> p) ->
          disk' !! p = (∅ : Disk) !! p).
Proof.
  apply (index_file_writes_column_files Sample.no_hashes 1000
           Sample.typed_frame "idx/APAC_AUS_0" ∅).
  repeat constructor. discriminate.
Defined.


Lemma range_bounds_are_values_witness :
  (2 < nunique (IntSeries [0; 500; 1000]%Z))%nat
  /\ In (VInt 0) (series_items (IntSeries [0; 500; 1000]))
  /\ In (VInt 1000) (series_items (IntSeries [0; 500; 1000])).
Proof.
  apply (range_bounds_are_values Sample.no_hashes 2 (IntSeries [0; 500; 1000])
           (VInt 0) (VInt 1000)).
  vm_compute. reflexivity.
Defined.

(** ** What [discover] prints *)

Lemma dfs_discover_prints (names : list string) :
  forall node path depth target,
    node_at node names = Some target ->
    end_of_file target = true ->
    In (indent (depth + length names) +:+ PyStr.join "/" (path ++ names))
       (_dfs_discover node path depth).
Proof.
  induction names as [|name names IH]; intros [cs eof bf fp] path depth target Hat Heof.
  - cbn [node_at] in Hat. inversion Hat; subst target. cbn [end_of_file] in Heof.
    subst eof. cbn [_dfs_discover length]. rewrite Nat.add_0_r, app_nil_r.
    now left.
  - cbn [node_at children] in Hat.
    destruct (dict_get name cs) as [child|] eqn:Hchild; [|discriminate].
    cbn [_dfs_discover]. apply in_or_app. right.
    apply in_flat_map. exists (name, child). split; [apply dict_get_In, Hchild|].
    cbn [fst snd]. right.
    replace (depth + length (name :: names))%nat with (S depth + length names)%nat
      by (cbn [length]; lia).
    replace (path ++ name :: names) with ((path ++ [name]) ++ names)
      by (now rewrite <- app_assoc).
    eapply IH; eassumption.
Qed.

Lemma insert_from_marks (pickle_load : string -> option FilterData)
    (path : list string) (fp : option string) :
  forall node, exists terminal,
    node_at (insert_from pickle_load node path fp) path = Some terminal
    /\ end_of_file terminal = true.
Proof.
  induction path as [|part path IH]; intros node.
  - cbn [insert_from node_at]. eexists. split; [reflexivity|].
    destruct (truthy fp); reflexivity.
  - cbn [insert_from node_at]. cbn [children set_children].
    rewrite dict_get_set_eq. apply IH.
Qed.

(** X21.  What was inserted is printed: after [insert(path, ...)] the
    lines [discover] prints include the path joined with ['/'], indented
    by two spaces per segment. *)
Theorem discover_prints_inserted_path (pickle_load : string -> option FilterData)
    (trie : Trie) (path : list string) (fp : option string) :
  In (indent (length path) +:+ PyStr.join "/" path)
     (Trie_discover (Trie_insert pickle_load trie path fp)).
Proof.
  unfold Trie_discover, Trie_insert. cbn [root].
  destruct (insert_from_marks pickle_load path fp (root trie))
    as (terminal & Hat & Heof).
  exact (dfs_discover_prints path _ [] 0 terminal Hat Heof).
Qed.

(** ** The connection handler, read by read *)

Lemma string_append_assoc (a b c : string) : (a +:+ b) +:+ c = a +:+ (b +:+ c).
Proof.
  induction a as [|x a IH]; [reflexivity|].
  change (String x ((a +:+ b) +:+ c) = String x (a +:+ (b +:+ c))).
  now rewrite IH.
Qed.

Section ReadByRead.

Variable json_loads : string -> option json.
Variable b64decode_utf8 : string -> option string.
Variable fromstring : string -> option Element.
Variable handlers : dict handler.

Lemma accumulate_steps (chunks : list string) :
  forall buffer fuel rest,
    (forall n, (0 < n <= length chunks)%nat ->
       ends_with_known_tag handlers
         (buffer +:+ foldr String.append "" (take n chunks)) = false) ->
    accumulate (length chunks + fuel) handlers buffer (map Data chunks ++ rest)
    = accumulate fuel handlers (buffer +:+ foldr String.append "" chunks) rest.
Proof.
  induction chunks as [|chunk chunks IH]; intros buffer fuel rest Hno.
  - cbn [length Nat.add map app foldr]. now rewrite append_empty_r.
  - cbn [length Nat.add map app accumulate read foldr].
    pose proof (Hno 1%nat ltac:(cbn [length]; lia)) as Hfirst.
    cbn [take foldr] in Hfirst. rewrite append_empty_r in Hfirst.
    rewrite Hfirst, <- string_append_assoc. apply IH.
    intros n Hn. rewrite string_append_assoc.
    apply (Hno (S n)). cbn [length]. lia.
Qed.

Lemma accumulate_more_fuel (fuel : nat) :
  forall buffer r a,
    accumulate fuel handlers buffer r = Some a ->
    forall k, accumulate (fuel + k) handlers buffer r = Some a.
Proof.
  induction fuel as [|fuel IH]; intros buffer r a Hacc k; [discriminate|].
  cbn [Nat.add accumulate] in *.
  destruct (read r) as [[data|] r']; [|exact Hacc].
  destruct (ends_with_known_tag handlers (buffer +:+ data)); [exact Hacc|].
  apply IH, Hacc.
Qed.

Lemma accumulate_enough_fuel (needed fuel : nat) (buffer : string) (r : reader)
    (a : accumulated) :
  accumulate needed handlers buffer r = Some a ->
  (needed <= fuel)%nat ->
  accumulate fuel handlers buffer r = Some a.
Proof.
  intros Hacc Hle. replace fuel with (needed + (fuel - needed))%nat by lia.
  apply accumulate_more_fuel, Hacc.
Qed.

Lemma accumulate_frames (init : list string) (last : string) (rest : reader)
    (fuel : nat) :
  (forall n, (0 < n <= length init)%nat ->
     ends_with_known_tag handlers (foldr String.append "" (take n init)) = false) ->
  ends_with_known_tag handlers (foldr String.append "" init +:+ last) = true ->
  (length init < fuel)%nat ->
  accumulate fuel handlers "" (map Data init ++ Data last :: rest)
  = Some (Framed (foldr String.append "" init +:+ last)).
Proof.
  intros Hno Hends Hfuel.
  apply (accumulate_enough_fuel (length init + 1)); [|lia].
  rewrite (accumulate_steps init "" 1 (Data last :: rest) Hno).
  cbn [accumulate read].
  change ("" +:+ foldr String.append "" init) with (foldr String.append "" init).
  now rewrite Hends.
Qed.



(** X24.  A framed text that is not well-formed XML ends the handler
    without a reply and without closing the writer: the connection stays
    open on the server side. *)
Theorem handle_echo_leaves_open_on_parse_error (init : list string) (last : string)
    (rest : reader) (trie : Trie) (fuel : nat) :
  (forall n, (0 < n <= length init)%nat ->
     ends_with_known_tag handlers (foldr String.append "" (take n init)) = false) ->
  ends_with_known_tag handlers (foldr String.append "" init +:+ last) = true ->
  fromstring (foldr String.append "" init +:+ last) = None ->
  (length init < fuel)%nat ->
  handle_echo json_loads b64decode_utf8 fromstring fuel handlers
              (map Data init ++ Data last :: rest) trie
  = Some (trie, mkOutcome [] false None).
Proof.
  intros Hno Hends Hparse Hfuel. unfold handle_echo.
  rewrite (accumulate_frames init last rest fuel Hno Hends Hfuel).
  unfold parse_message. rewrite Hparse. reflexivity.
Qed.


(** X26.  A framed message of format [json] whose text is not valid JSON
    makes [parse_message] raise the decode error of [json.loads]; this is
    not [ParseError], so it escapes [handle_echo]: no reply, and the
    writer is not closed. *)
Theorem handle_echo_json_error_escapes (fuel : nat) (r : reader) (trie : Trie)
    (buffer : string) (root_elem : Element) (t : string) :
  accumulate fuel handlers "" r = Some (Framed buffer) ->
  fromstring buffer = Some root_elem ->
  dict_get "format" (attrib root_elem) = Some "json" ->
  text root_elem = Some t ->
  json_loads (PyStr.strip t) = None ->
  handle_echo json_loads b64decode_utf8 fromstring fuel handlers r trie
  = Some (trie, mkOutcome [] false (Some JSONDecodeError)).
Proof.
  intros Hacc Hparse Hformat Htext Hjson. unfold handle_echo, parse_message.
  rewrite Hacc, Hparse, Htext, Hformat. cbn [result_bind].
  rewrite bool_decide_eq_true_2 by reflexivity. rewrite Hjson. reflexivity.
Qed.

End ReadByRead.

(** ** The directory of a shard *)

Lemma chars_append (a b : string) :
  PyStr.chars (a +:+ b) = PyStr.chars a ++ PyStr.chars b.
Proof.
  induction a as [|c a IH]; [reflexivity|].
  change (c :: PyStr.chars (a +:+ b) = c :: (PyStr.chars a ++ PyStr.chars b)).
  now rewrite IH.
Qed.

Lemma of_chars_chars (s : string) : PyStr.of_chars (PyStr.chars s) = s.
Proof. apply string_of_list_ascii_of_string. Qed.

Lemma take_while_stops (p : ascii -> bool) (l : list ascii) (c : ascii)
    (l' : list ascii) :
  forallb p l = true -> p c = false -> take_while p (l ++ c :: l') = l.
Proof.
  intros Hall Hc. induction l as [|x l IH]; cbn [app take_while].
  - now rewrite Hc.
  - cbn [forallb] in Hall. apply andb_true_iff in Hall. destruct Hall as [-> Hl].
    now rewrite IH.
Qed.

Lemma take_while_all (p : ascii -> bool) (l : list ascii) :
  forallb p l = true -> take_while p l = l.
Proof.
  induction l as [|x l IH]; [reflexivity|]. cbn [forallb take_while].
  intros Hall. apply andb_true_iff in Hall. destruct Hall as [-> Hl].
  now rewrite IH.
Qed.

Lemma forallb_rev {A} (p : A -> bool) (l : list A) :
  forallb p (rev l) = forallb p l.
Proof.
  induction l as [|x l IH]; [reflexivity|].
  cbn [rev forallb]. rewrite forallb_app, IH. cbn [forallb].
  rewrite andb_true_r. apply andb_comm.
Qed.

Lemma basename_of_joined (dir name : string) :
  forallb (fun c => negb (OsPath.is_slash c)) (PyStr.chars name) = true ->
  basename (dir +:+ "/" +:+ name) = name.
Proof.
  intros Hname. unfold basename.
  rewrite chars_append.
  change (PyStr.chars ("/" +:+ name)) with ("/"%char :: PyStr.chars name).
  rewrite rev_app_distr. cbn [rev]. rewrite <- app_assoc. cbn [app].
  rewrite take_while_stops; [|now rewrite forallb_rev|reflexivity].
  rewrite rev_involutive. apply of_chars_chars.
Qed.

Lemma before_first_dot_of_dotted (stem ext : string) :
  forallb (fun c => negb (Ascii.eqb c "."%char)) (PyStr.chars stem) = true ->
  before_first_dot (stem +:+ "." +:+ ext) = stem.
Proof.
  intros Hstem. unfold before_first_dot.
  rewrite chars_append.
  change (PyStr.chars ("." +:+ ext)) with ("."%char :: PyStr.chars ext).
  rewrite take_while_stops; [apply of_chars_chars|exact Hstem|reflexivity].
Qed.

(** X27.  The filters of a shard go to the directory named by the file
    name of the shard up to its first dot, under the output directory:
    the directory of the Parquet file and everything after the first dot
    play no part, so two shards whose file names agree up to the first
    dot share one directory. *)
Theorem create_bloom_path_keeps_stem (output_dir dir stem ext : string) :
  forallb (fun c => negb (OsPath.is_slash c)) (PyStr.chars (stem +:+ "." +:+ ext))
  = true ->
  forallb (fun c => negb (Ascii.eqb c "."%char)) (PyStr.chars stem) = true ->
  _create_bloom_path false None output_dir (dir +:+ "/" +:+ stem +:+ "." +:+ ext)
  = Ok (OsPath.join output_dir stem).
Proof.
  intros Hname Hstem. unfold _create_bloom_path.
  rewrite (basename_of_joined dir _ Hname).
  now rewrite (before_first_dot_of_dotted stem ext Hstem).
Qed.

Lemma create_bloom_path_keeps_stem_witness :
  _create_bloom_path false None "bloom" ("data/2023" +:+ "/" +:+ "APAC_AUS" +:+ "." +:+ "0.parquet")
  = Ok (OsPath.join "bloom" "APAC_AUS").
Proof.
  apply (create_bloom_path_keeps_stem "bloom" "data/2023" "APAC_AUS" "0.parquet").
  - reflexivity.
  - reflexivity.
Defined.



Lemma handle_echo_leaves_open_on_parse_error_witness :
  handle_echo (fun _ => None) (fun _ => None) Sample.ping_fromstring 2
              Sample.ping_handlers
              (map Data ["<ping>"] ++ Data "<oops</ping>" :: []) Trie_init
  = Some (Trie_init, mkOutcome [] false None).
Proof.
  apply (handle_echo_leaves_open_on_parse_error (fun _ => None) (fun _ => None)
           Sample.ping_fromstring Sample.ping_handlers
           ["<ping>"] "<oops</ping>" [] Trie_init 2).
  - intros n Hn. cbn [length] in Hn.
    assert (Hone : n = 1%nat) by lia. subst n. reflexivity.
  - reflexivity.
  - reflexivity.
  - cbn [length]. lia.
Defined.


Lemma handle_echo_json_error_escapes_witness :
  handle_echo (fun _ => None) (fun _ => None)
              (fun _ => Some (mkElement "ping" [("format", "json")] (Some "{oops")))
              1 Sample.ping_handlers
              [Data ("<ping format=" +:+ dquote +:+ "json" +:+ dquote
                     +:+ ">{oops</ping>")]
              Trie_init
  = Some (Trie_init, mkOutcome [] false (Some JSONDecodeError)).
Proof.
  apply (handle_echo_json_error_escapes (fun _ => None) (fun _ => None)
           (fun _ => Some (mkElement "ping" [("format", "json")] (Some "{oops")))
           Sample.ping_handlers 1
           [Data ("<ping format=" +:+ dquote +:+ "json" +:+ dquote
                  +:+ ">{oops</ping>")]
           Trie_init
           ("<ping format=" +:+ dquote +:+ "json" +:+ dquote +:+ ">{oops</ping>")
           (mkElement "ping" [("format", "json")] (Some "{oops")) "{oops").
  - reflexivity.
  - reflexivity.
  - reflexivity.
  - reflexivity.
  - reflexivity.
Defined.

(** ** Insert, then search *)

Lemma fnmatchcase_star (name : string) : Fnmatch.fnmatchcase name "*" = true.
Proof.
  unfold Fnmatch.fnmatchcase.
  change (Fnmatch.translate "*") with [Fnmatch.TStar].
  induction (PyStr.chars name) as [|c l IH]; [reflexivity|].
  cbn [Fnmatch.match_toks] in *. rewrite IH. apply orb_true_r.
Qed.

Lemma node_at_reaches (names : list string) :
  forall node target, node_at node names = Some target -> reaches node names target.
Proof.
  induction names as [|name names IH]; intros node target Hat; cbn [node_at] in Hat.
  - inversion Hat; subst. constructor.
  - destruct (dict_get name (children node)) as [child|] eqn:Hchild; [|discriminate].
    econstructor; [apply dict_get_In, Hchild | apply IH, Hat].
Qed.

(** X29.  What was inserted is found: after [insert(path, location)] a
    search with one [*] per segment of the path returns the entry of the
    path, with the directory portion of the joined path and with what
    loading the location gives ([None] when the artifact cannot be
    read). *)
Theorem inserted_artifact_is_found (normcase : string -> string)
    (pickle_load : string -> option FilterData) (trie : Trie)
    (path : list string) (location : string) :
  location <> "" ->
  normcase "*" = "*" ->
  In (OsPath.dirname (PyStr.join "/" path), pickle_load location)
     (Trie_search normcase pickle_load
        (Trie_insert pickle_load trie path (Some location))
        (map (fun _ => "*") path)).2.
Proof.
  intros Hloc Hstar.
  destruct (node_at_insert_from pickle_load path location Hloc (root trie))
    as (terminal & Hat & Heof & Hfp & Hbf).
  assert (Hfilter : effective_filter pickle_load terminal = pickle_load location).
  { unfold effective_filter. rewrite Hbf, Hfp.
    destruct (pickle_load location) eqn:Hload; [reflexivity | exact Hload]. }
  unfold Trie_search, Trie_insert. cbn [root].
  pose proof (dfs_search_reads normcase pickle_load
                (insert_from pickle_load (root trie) path (Some location))
                (map (fun _ => "*") path) 0 [] []) as Hreads.
  destruct (_dfs_search normcase pickle_load
              (insert_from pickle_load (root trie) path (Some location))
              (map (fun _ => "*") path) 0 [] []) as [root' results].
  cbn [snd] in *. subst results. cbn [app]. rewrite <- Hfilter.
  apply (hits_under_complete normcase pickle_load _ terminal path
           (node_at_reaches path _ _ Hat) Heof (map (fun _ => "*") path) 0%nat []).
  cbn [drop]. clear -Hstar.
  induction path as [|name path IH]; constructor; [|exact IH].
  unfold Fnmatch.fnmatch. rewrite Hstar. apply fnmatchcase_star.
Qed.

Lemma inserted_artifact_is_found_witness :
  In (OsPath.dirname (PyStr.join "/" ["bloom"; "A"; "account_balance.pickle"]),
      disk_load Sample.balance_disk "idx/A/account_balance.pickle")
     (Trie_search Sample.posix (disk_load Sample.balance_disk)
        (Trie_insert (disk_load Sample.balance_disk) Trie_init
                     ["bloom"; "A"; "account_balance.pickle"]
                     (Some "idx/A/account_balance.pickle"))
        (map (fun _ => "*") ["bloom"; "A"; "account_balance.pickle"])).2.
Proof.
  apply (inserted_artifact_is_found Sample.posix (disk_load Sample.balance_disk)
           Trie_init ["bloom"; "A"; "account_balance.pickle"]
           "idx/A/account_balance.pickle").
  - discriminate.
  - reflexivity.
Defined.
